(** * telegram_payment_bot: bulk eviction, periodic payment check, chat registry

    Shallow embedding of
      - [utils/wrapped_list.py]            (class [WrappedList]),
      - [command/commands.py]              ([RemoveNoPaymentCmd] and the
                                            [PaymentTask*Cmd] handlers),
      - [payments_periodic_checker.py]     (class [PaymentsPeriodicChecker]),
      - [translation_loader.py]            (class [TranslationLoader]).

    Python objects live in a store: a [WrappedList] instance is a reference to
    the Python list held by its [list_elements] field, and every method is a
    computation over the store that may return or raise. *)

From Stdlib Require Import ZArith List Lia Bool String Ascii.
From stdpp Require Import base option list gmap strings sorting.

Local Open Scope Z_scope.

(** ** Computations that may raise *)

(** The exceptions the modelled code raises or catches. [PlatformError] is the
    failure of the platform's member enumeration or removal. *)
Inductive exn : Type :=
| ValueError
| AttributeError
| SchedulerAlreadyRunningError
| PlatformError
| CommandParameterError
| PaymentsCheckJobAlreadyRunningError
| PaymentsCheckJobInvalidPeriodError
| PaymentsCheckJobNotRunningError
| PaymentsCheckJobChatAlreadyPresentError
| PaymentsCheckJobChatNotPresentError.

#[global] Instance exn_eq_dec : EqDecision exn.
Proof. solve_decision. Defined.

Inductive outcome (R : Type) : Type :=
| Return (r : R)
| Raise (e : exn).
Arguments Return {R} r.
Arguments Raise {R} e.

(** A statement of the program: it starts in a state and, unless it runs
    forever, ends in a state having returned a value or raised. State changes
    made before an exception is raised are kept, as in Python. [None] stands
    for a run that did not finish within the iterations allowed to its
    [while] loops. *)
Definition Comp (St R : Type) : Type := St -> option (outcome R * St).

Definition ret {St R} (r : R) : Comp St R := fun s => Some (Return r, s).

Definition raise {St R} (e : exn) : Comp St R := fun s => Some (Raise e, s).

Definition bind {St R R'} (m : Comp St R) (k : R -> Comp St R') : Comp St R' :=
  fun s =>
    match m s with
    | Some (Return r, s') => k r s'
    | Some (Raise e, s') => Some (Raise e, s')
    | None => None
    end.

(** [try: m except ...: ...]: [handler e] is the body of the [except] clause
    that catches [e], if there is one. *)
Definition try_except {St R} (m : Comp St R)
    (handler : exn -> option (Comp St R)) : Comp St R :=
  fun s =>
    match m s with
    | Some (Raise e, s') =>
        match handler e with
        | Some h => h s'
        | None => Some (Raise e, s')
        end
    | r => r
    end.

(** [try: m except ...: ... else: k] *)
Definition try_except_else {St R R'} (m : Comp St R)
    (handler : exn -> option (Comp St R')) (k : R -> Comp St R') : Comp St R' :=
  fun s =>
    match m s with
    | Some (Return r, s') => k r s'
    | Some (Raise e, s') =>
        match handler e with
        | Some h => h s'
        | None => Some (Raise e, s')
        end
    | None => None
    end.

(** [except e0: h] *)
Definition except {St R} (e0 : exn) (h : Comp St R) : exn -> option (Comp St R) :=
  fun e => if decide (e = e0) then Some h else None.

(** Two [except] clauses in a row. *)
Definition except_then {St R} (first second : exn -> option (Comp St R))
    : exn -> option (Comp St R) :=
  fun e => match first e with Some h => Some h | None => second e end.

(** [finished = False; while not finished: finished = body()], run for at
    most [fuel] iterations. The value returned is the number of iterations
    executed. *)
Fixpoint while_not_finished {St} (fuel : nat) (body : Comp St bool) : Comp St nat :=
  fun s =>
    match fuel with
    | O => None
    | S fuel' =>
        match body s with
        | Some (Return true, s') => Some (Return 1%nat, s')
        | Some (Return false, s') =>
            match while_not_finished fuel' body s' with
            | Some (Return n, s'') => Some (Return (S n), s'')
            | r => r
            end
        | Some (Raise e, s') => Some (Raise e, s')
        | None => None
        end
    end.

(** [for x in xs: body(x)] *)
Fixpoint for_each {St X} (xs : list X) (body : X -> Comp St unit) : Comp St unit :=
  match xs with
  | [] => ret tt
  | x :: xs' => bind (body x) (fun _ => for_each xs' body)
  end.

Declare Scope comp_scope.
Delimit Scope comp_scope with comp.
Notation "'let*' x ':=' m 'in' k" := (bind m (fun x => k))
  (at level 10, x name, m at level 100, k at level 200) : comp_scope.
Notation "m ';;;' k" := (bind m (fun _ => k))
  (at level 100, k at level 200, right associativity) : comp_scope.

(** ** The store of Python lists *)

Definition loc : Type := positive.

Abbreviation heap A := (gmap loc (list A)).

Section Store.
Context {A : Type} `{EqDecision A}.

(** [list()]: a new, empty list object. *)
Definition alloc (xs : list A) (h : heap A) : loc * heap A :=
  let l := fresh (dom h) in (l, <[l := xs]> h).

(** [len(l)] *)
Definition py_len (l : loc) (h : heap A) : Z := Z.of_nat (length (h !!! l)).

(** [l.append(x)] *)
Definition py_append (l : loc) (x : A) (h : heap A) : heap A :=
  <[l := h !!! l ++ [x]]> h.

(** [dst.extend(src)]: CPython reads the items of [src] before it grows
    [dst], so [l.extend(l)] doubles [l]. *)
Definition py_extend (dst src : loc) (h : heap A) : heap A :=
  <[dst := h !!! dst ++ h !!! src]> h.

(** [x in l] *)
Definition py_contains (l : loc) (x : A) (h : heap A) : bool :=
  bool_decide (x ∈ h !!! l).

(** [l.remove(x)] drops the first item equal to [x]. *)
Fixpoint remove_first (x : A) (xs : list A) : list A :=
  match xs with
  | [] => []
  | y :: ys => if decide (x = y) then ys else y :: remove_first x ys
  end.

(** [l.clear()] *)
Definition py_clear (l : loc) (h : heap A) : heap A := <[l := []]> h.

(** *** class WrappedList *)

Record WrappedList : Type := { list_elements : loc }.

Definition Method (R : Type) : Type := Comp (heap A) R.

(** [__init__]: [self.list_elements = []] *)
Definition WrappedList_init : Method WrappedList :=
  fun h => let '(l, h') := alloc [] h in Some (Return {| list_elements := l |}, h').

Definition AddSingle (self : WrappedList) (element : A) : Method unit :=
  fun h => Some (Return tt, py_append (list_elements self) element h).

Definition GetList (self : WrappedList) : Method loc :=
  ret (list_elements self).

(** The argument of [AddMultiple] is a plain list ([inl]) or a
    [WrappedList] ([inr]); [isinstance] picks the branch. *)
Definition AddMultiple (self : WrappedList) (elements : loc + WrappedList)
    : Method unit :=
  match elements with
  | inr wrapped =>
      (let* l := GetList wrapped in
       fun h => Some (Return tt, py_extend (list_elements self) l h))%comp
  | inl l =>
      fun h => Some (Return tt, py_extend (list_elements self) l h)
  end.

(** [list.remove] raises [ValueError] when the element is absent. *)
Definition RemoveSingle (self : WrappedList) (element : A) : Method unit :=
  fun h =>
    if py_contains (list_elements self) element h
    then Some (Return tt,
               <[list_elements self := remove_first element (h !!! list_elements self)]> h)
    else Some (Raise ValueError, h).

Definition IsElem (self : WrappedList) (element : A) : Method bool :=
  fun h => Some (Return (py_contains (list_elements self) element h), h).

Definition Clear (self : WrappedList) : Method unit :=
  fun h => Some (Return tt, py_clear (list_elements self) h).

Definition Count (self : WrappedList) : Method Z :=
  fun h => Some (Return (py_len (list_elements self) h), h).

Definition Any (self : WrappedList) : Method bool :=
  (let* n := Count self in ret (n >? 0))%comp.

Definition Empty (self : WrappedList) : Method bool :=
  (let* n := Count self in ret (n =? 0))%comp.

(** The items of a wrapped list in a store. *)
Definition items (self : WrappedList) (h : heap A) : list A :=
  h !!! list_elements self.

End Store.


(** ** Chats, members, configuration, command data *)

Record Chat : Type := {
  chat_id : Z;
  chat_type : string;
  chat_title : option string
}.

Record Member : Type := { user_id : Z; user_name : string }.

#[global] Instance Member_eq_dec : EqDecision Member.
Proof. solve_decision. Defined.

(** Modelled from the spec: the configuration classes are missing from the
    sources. These are the entries the modelled code reads. *)
Record Config : Type := {
  APP_TEST_MODE : bool;
  PAYMENT_CHECK_PERIOD_SEC : Z;
  PAYMENT_CHECK_CHAT_IDS : list Z
}.

(** The sentences of the translation file the modelled commands use, with
    their placeholders. A message is the concatenation of sentences. *)
Inductive Sentence : Type :=
| GROUP_ONLY_ERR_MSG
| PARAM_ERR_MSG
| REMOVE_NO_PAYMENT_NOTICE_CMD (chat_title : option string)
| REMOVE_NO_PAYMENT_COMPLETED_CMD (members_count : Z)
| REMOVE_NO_PAYMENT_LIST_CMD (members_list : list Member)
| PAYMENT_TASK_START_OK_CMD (period : Z)
| TASK_EXISTENT_ERR_MSG
| TASK_PERIOD_ERR_MSG
| PAYMENT_TASK_STOP_OK_CMD
| TASK_NOT_EXISTENT_ERR_MSG
| PAYMENT_TASK_ADD_CHAT_OK_CMD
| PAYMENT_TASK_ADD_CHAT_ERR_CMD
| PAYMENT_TASK_REMOVE_CHAT_OK_CMD
| PAYMENT_TASK_REMOVE_CHAT_ERR_CMD
| PAYMENT_TASK_REMOVE_ALL_CHATS_CMD.

Definition Message : Type := list Sentence.

(** What a command does towards the chat it answers in. *)
Inductive Output : Type :=
| SendMessage (msg : Message)
| NewInviteLink.

(** Modelled from the spec: [command/command_data.py] is missing from the
    sources. The [cmd_data] of a command is kept as the chat it was issued in,
    whether that chat is a private one ([_IsPrivateChat]), and its parameters
    ([None] is a parameter that is not an integer). *)
Record CommandData : Type := {
  cmd_chat : Chat;
  cmd_private : bool;
  cmd_params : list (option Z)
}.

(** Modelled from the spec: [command/command_base.py] is missing from the
    sources. What the commands inherit from [CommandBase] is sending a message
    to the chat of the command. *)
Class CommandBase (St : Type) : Type := {
  _SendMessage : Message -> Comp St unit
}.

(** Decorator for group-only commands. *)
Definition GroupChatOnly {St} `{!CommandBase St}
    (exec_cmd_fct : CommandData -> Comp St unit) : CommandData -> Comp St unit :=
  fun self =>
    if cmd_private self
    then _SendMessage [GROUP_ONLY_ERR_MSG]
    else exec_cmd_fct self.

(** Modelled from the spec: [self.cmd_data.Params().GetAsInt(idx)], of the
    missing [command/command_data.py]; it raises [CommandParameterError] when
    there is no parameter at [idx] or the parameter is not an integer. *)
Definition GetAsInt {St} (self : CommandData) (idx : nat) : Comp St Z :=
  match cmd_params self !! idx with
  | Some (Some n) => ret n
  | _ => raise CommandParameterError
  end.

(** The records written to the logger by the periodic check. *)
Inductive LogRecord : Type :=
| LogCheckStarted
| LogCheckingChat (chat_id : Z)
| LogKickedCount (chat_id : Z) (count : Z)
| LogKickedMembers (members : list Member).

(** ** The commands and the periodic check over the platform *)

Section World.
Context {Platform : Type}.

(** What one pass of [MembersKicker(...).KickAllWithExpiredPayment(chat)]
    does to the platform, and the members it reports as kicked.
    [members_kicker.py] is missing from the sources: the pass is a parameter
    of the model. It reads the configuration (in test mode members are not
    really kicked) and may fail with [PlatformError]. *)
Variable kick_pass :
  Config -> Chat -> Platform -> outcome (list Member) * Platform.

Record World : Type := {
  config : Config;
  objects : heap Member;
  platform : Platform;
  outbox : list Output;
  log : list LogRecord
}.

Definition set_objects (h : heap Member) (w : World) : World :=
  {| config := config w; objects := h; platform := platform w;
     outbox := outbox w; log := log w |}.

Definition set_platform (p : Platform) (w : World) : World :=
  {| config := config w; objects := objects w; platform := p;
     outbox := outbox w; log := log w |}.

(** A method call on an object of the store. *)
Definition on_objects {R} (m : Method R) : Comp World R :=
  fun w =>
    match m (objects w) with
    | Some (r, h) => Some (r, set_objects h w)
    | None => None
    end.

(** Modelled from the spec: [self.config.GetValue(key)], of the missing
    configuration class. *)
Definition GetValue {R} (key : Config -> R) : Comp World R :=
  fun w => Some (Return (key (config w)), w).

(** Modelled from the spec: [self._SendMessage(msg)], of the missing
    [CommandBase]; the message is recorded in the outbox. *)
#[export] Instance World_CommandBase : CommandBase World := {|
  _SendMessage msg := fun w =>
    Some (Return tt,
          {| config := config w; objects := objects w; platform := platform w;
             outbox := outbox w ++ [SendMessage msg]; log := log w |})
|}.

(** Modelled from the spec: [self._NewInviteLink()], of the missing
    [CommandBase]; the request is recorded in the outbox. *)
Definition _NewInviteLink : Comp World unit :=
  fun w =>
    Some (Return tt,
          {| config := config w; objects := objects w; platform := platform w;
             outbox := outbox w ++ [NewInviteLink]; log := log w |}).

(** Modelled from the spec: [self.logger.GetLogger().info(...)], of the
    missing logger; the record is appended to the log. *)
Definition logger_info (r : LogRecord) : Comp World unit :=
  fun w =>
    Some (Return tt,
          {| config := config w; objects := objects w; platform := platform w;
             outbox := outbox w; log := log w ++ [r] |}).

(** Modelled from the spec: [MembersKicker(...).KickAllWithExpiredPayment],
    of the missing [members_kicker.py]. The pass is [kick_pass]; its result is
    handed over in a new [ChatMembersList], and a failure leaves the platform
    as the pass left it. *)
Definition KickAllWithExpiredPayment (chat : Chat) : Comp World WrappedList :=
  fun w =>
    match kick_pass (config w) chat (platform w) with
    | (Return members, p) =>
        let '(l, h) := alloc members (objects w) in
        Some (Return {| list_elements := l |}, set_platform p (set_objects h w))
    | (Raise e, p) => Some (Raise e, set_platform p w)
    end.

(** Modelled from the spec: [ChatMembersList()], of the missing
    [misc/chat_members.py]; the class is a [WrappedList] of chat members. *)
Definition ChatMembersList : Comp World WrappedList :=
  on_objects WrappedList_init.

(** Modelled from the spec: [str(members)] and [members.ToString()], of the
    missing [ChatMembersList]: the members listed in order. *)
Definition ToString (self : WrappedList) : Comp World (list Member) :=
  fun w => Some (Return (items self (objects w)), w).

(** Modelled from the spec: [ChatHelper.GetTitle(chat)], of the missing
    [misc/helpers.py]. *)
Definition GetTitle (chat : Chat) : option string := chat_title chat.

(** *** commands.py *)

(** One iteration of the loop of [RemoveNoPaymentCmd._ExecuteCommand]; its
    value is the new value of [finished]. *)
Definition kick_iteration (self : CommandData) (kicked_members : WrappedList)
    : Comp World bool :=
  (let* curr_kicked_members := KickAllWithExpiredPayment (cmd_chat self) in
   let* any := on_objects (Any curr_kicked_members) in
   if any then
     on_objects (AddMultiple kicked_members (inr curr_kicked_members));;;
     GetValue APP_TEST_MODE
   else
     ret true)%comp.

(** The bulk eviction loop, lines 499 to 512 of commands.py: from
    [finished = False] to the end of the [while]. Its value is
    [kicked_members] with the number of passes made. *)
Definition EvictAllMatching (fuel : nat) (self : CommandData)
    : Comp World (WrappedList * nat) :=
  (let* kicked_members := ChatMembersList in
   let* passes := while_not_finished fuel (kick_iteration self kicked_members) in
   ret (kicked_members, passes))%comp.

(** [RemoveNoPaymentCmd._ExecuteCommand], before decoration. *)
Definition RemoveNoPaymentCmd_body (fuel : nat) (self : CommandData)
    : Comp World unit :=
  (_SendMessage [REMOVE_NO_PAYMENT_NOTICE_CMD (GetTitle (cmd_chat self))];;;
   let* evicted := EvictAllMatching fuel self in
   let kicked_members := fst evicted in
   let* members_count := on_objects (Count kicked_members) in
   let msg := [REMOVE_NO_PAYMENT_COMPLETED_CMD members_count] in
   let* any := on_objects (Any kicked_members) in
   let* msg :=
     (if any then
        let* members_list := ToString kicked_members in
        ret (msg ++ [REMOVE_NO_PAYMENT_LIST_CMD members_list])
      else ret msg) in
   _SendMessage msg;;;
   let* any := on_objects (Any kicked_members) in
   if any then _NewInviteLink else ret tt)%comp.

Definition RemoveNoPaymentCmd_ExecuteCommand (fuel : nat)
    : CommandData -> Comp World unit :=
  GroupChatOnly (RemoveNoPaymentCmd_body fuel).

(** *** payments_periodic_checker.py *)

(** The body of the [for] loop of [__PaymentsCheckTask]. *)
Definition check_chat (chat_id : Z) : Comp World unit :=
  (logger_info (LogCheckingChat chat_id);;;
   let curr_chat :=
     {| chat_id := chat_id; chat_type := "supergroup"; chat_title := None |} in
   let* kicked_members := KickAllWithExpiredPayment curr_chat in
   let* count := on_objects (Count kicked_members) in
   logger_info (LogKickedCount chat_id count);;;
   let* any := on_objects (Any kicked_members) in
   if any then
     let* members := ToString kicked_members in
     logger_info (LogKickedMembers members)
   else ret tt)%comp.

(** [PaymentsPeriodicChecker.__PaymentsCheckTask] *)
Definition __PaymentsCheckTask : Comp World unit :=
  (logger_info LogCheckStarted;;;
   let* chat_ids := GetValue PAYMENT_CHECK_CHAT_IDS in
   for_each chat_ids check_chat)%comp.

End World.

Arguments World Platform : clear implicits.

(** *** PaymentsPeriodicChecker: Init and Start *)

Module PeriodicChecker.

(** Modelled from the spec: the library class [BackgroundScheduler] is not
    part of the sources. It is kept as the interval, in seconds, of each job
    added to it (every job runs [__PaymentsCheckTask]) and whether it was
    started. *)
Record BackgroundScheduler : Type := {
  jobs : list Z;
  started : bool
}.

Record PaymentsPeriodicChecker : Type := {
  checker_config : Config;
  scheduler : option BackgroundScheduler
}.

(** [__init__]: [self.scheduler = None] *)
Definition PaymentsPeriodicChecker_init (config : Config)
    : PaymentsPeriodicChecker :=
  {| checker_config := config; scheduler := None |}.

(** [scheduler.add_job(self.__PaymentsCheckTask, "interval", seconds=...)] *)
Definition add_job (seconds : Z) (b : BackgroundScheduler) : BackgroundScheduler :=
  {| jobs := jobs b ++ [seconds]; started := started b |}.

Definition Init : Comp PaymentsPeriodicChecker unit :=
  fun self =>
    let scheduler := {| jobs := []; started := false |} in
    let check_period := PAYMENT_CHECK_PERIOD_SEC (checker_config self) in
    if check_period >? 0 then
      Some (Return tt,
            {| checker_config := checker_config self;
               scheduler := Some (add_job check_period scheduler) |})
    else
      Some (Return tt,
            {| checker_config := checker_config self;
               scheduler := Some scheduler |}).

(** [self.scheduler.start()]; before [Init] the attribute is [None]. *)
Definition Start : Comp PaymentsPeriodicChecker unit :=
  fun self =>
    match scheduler self with
    | None => Some (Raise AttributeError, self)
    | Some b =>
        if started b then Some (Raise SchedulerAlreadyRunningError, self)
        else
          Some (Return tt,
                {| checker_config := checker_config self;
                   scheduler := Some {| jobs := jobs b; started := true |} |})
    end.

End PeriodicChecker.

(** ** The scheduler behind the PaymentTask commands *)

Module PaymentsCheckScheduler.

Inductive Status : Type := Stopped | Running.

#[global] Instance Status_eq_dec : EqDecision Status.
Proof. solve_decision. Defined.

(** Modelled from the spec: [payment/payments_check_scheduler.py], the class
    of [kwargs["payments_check_scheduler"]], is missing from the sources.
    The scheduler has a status, a period when it runs, and a registry of
    chats, a [WrappedList] of chat identifiers. [timer] is the interval of
    the periodic job, when one is scheduled. The record also carries the
    store holding the registry and the outputs of the commands. *)
Record Scheduler : Type := {
  chat_lists : heap Z;
  status : Status;
  period : option Z;
  timer : option Z;
  job_chats : WrappedList;
  sent : list Output
}.

Definition set_chat_lists (h : heap Z) (s : Scheduler) : Scheduler :=
  {| chat_lists := h; status := status s; period := period s;
     timer := timer s; job_chats := job_chats s; sent := sent s |}.

Definition on_chat_lists {R} (m : Method R) : Comp Scheduler R :=
  fun s =>
    match m (chat_lists s) with
    | Some (r, h) => Some (r, set_chat_lists h s)
    | None => None
    end.

(** Modelled from the spec: the constructor of the missing scheduler class.
    A new scheduler is [Stopped], has no period and no timer, and an empty
    registry. *)
Definition new_scheduler : Scheduler :=
  let '(l, h) := alloc [] ∅ in
  {| chat_lists := h; status := Stopped; period := None; timer := None;
     job_chats := {| list_elements := l |}; sent := [] |}.

(** Modelled from the spec: [Start] of the missing scheduler class. It
    requires [Stopped] and a period strictly greater than zero: a running
    scheduler refuses every [Start], a stopped one refuses a period that is
    not positive. On success it schedules the tick every [period] and becomes
    [Running]. *)
Definition Start (p : Z) : Comp Scheduler unit :=
  fun s =>
    match status s with
    | Running => Some (Raise PaymentsCheckJobAlreadyRunningError, s)
    | Stopped =>
        if p <=? 0 then Some (Raise PaymentsCheckJobInvalidPeriodError, s)
        else
          Some (Return tt,
                {| chat_lists := chat_lists s; status := Running;
                   period := Some p; timer := Some p;
                   job_chats := job_chats s; sent := sent s |})
    end.

(** Modelled from the spec: [Stop] of the missing scheduler class. It
    requires [Running]; it cancels the periodic timer and resets the state
    to [Stopped] with no period. *)
Definition Stop : Comp Scheduler unit :=
  fun s =>
    match status s with
    | Stopped => Some (Raise PaymentsCheckJobNotRunningError, s)
    | Running =>
        Some (Return tt,
              {| chat_lists := chat_lists s; status := Stopped;
                 period := None; timer := None;
                 job_chats := job_chats s; sent := sent s |})
    end.

(** Modelled from the spec: the observers [GetChats], [IsRunning] and
    [GetPeriod] of the missing scheduler class; [GetChats] hands out the
    registry itself. *)
Definition GetChats : Comp Scheduler WrappedList :=
  fun s => Some (Return (job_chats s), s).

Definition IsRunning : Comp Scheduler bool :=
  fun s => Some (Return (bool_decide (status s = Running)), s).

Definition GetPeriod : Comp Scheduler (option Z) :=
  fun s => Some (Return (period s), s).

(** Modelled from the spec: [AddChat] of the missing scheduler class. The
    registry holds chat identifiers; a chat already present is refused and
    the registry is left as it was. *)
Definition AddChat (chat : Chat) : Comp Scheduler unit :=
  (let* chats := GetChats in
   let* present := on_chat_lists (IsElem chats (chat_id chat)) in
   if present then raise PaymentsCheckJobChatAlreadyPresentError
   else on_chat_lists (AddSingle chats (chat_id chat)))%comp.

(** Modelled from the spec: [RemoveChat] of the missing scheduler class; a
    chat that is absent is refused. *)
Definition RemoveChat (chat : Chat) : Comp Scheduler unit :=
  (let* chats := GetChats in
   let* present := on_chat_lists (IsElem chats (chat_id chat)) in
   if present then on_chat_lists (RemoveSingle chats (chat_id chat))
   else raise PaymentsCheckJobChatNotPresentError)%comp.

(** Modelled from the spec: [RemoveAllChats] of the missing scheduler class
    clears the registry and never fails. *)
Definition RemoveAllChats : Comp Scheduler unit :=
  (let* chats := GetChats in on_chat_lists (Clear chats))%comp.

(** *** commands.py: the PaymentTask commands *)

(** Modelled from the spec: [self._SendMessage(msg)], of the missing
    [CommandBase]; the message is recorded in [sent]. *)
#[export] Instance Scheduler_CommandBase : CommandBase Scheduler := {|
  _SendMessage msg := fun s =>
    Some (Return tt,
          {| chat_lists := chat_lists s; status := status s;
             period := period s; timer := timer s;
             job_chats := job_chats s; sent := sent s ++ [SendMessage msg] |})
|}.

Definition PaymentTaskStartCmd_ExecuteCommand (self : CommandData)
    : Comp Scheduler unit :=
  try_except_else
    (GetAsInt self 0)
    (except CommandParameterError (_SendMessage [PARAM_ERR_MSG]))
    (fun period_hours =>
       try_except
         (Start period_hours;;;
          _SendMessage [PAYMENT_TASK_START_OK_CMD period_hours])%comp
         (except_then
            (except PaymentsCheckJobAlreadyRunningError
               (_SendMessage [TASK_EXISTENT_ERR_MSG]))
            (except PaymentsCheckJobInvalidPeriodError
               (_SendMessage [TASK_PERIOD_ERR_MSG])))).

Definition PaymentTaskStopCmd_ExecuteCommand (self : CommandData)
    : Comp Scheduler unit :=
  try_except
    (Stop;;; _SendMessage [PAYMENT_TASK_STOP_OK_CMD])%comp
    (except PaymentsCheckJobNotRunningError
       (_SendMessage [TASK_NOT_EXISTENT_ERR_MSG])).

Definition PaymentTaskAddChatCmd_ExecuteCommand
    : CommandData -> Comp Scheduler unit :=
  GroupChatOnly (fun self =>
    try_except
      (AddChat (cmd_chat self);;;
       _SendMessage [PAYMENT_TASK_ADD_CHAT_OK_CMD])%comp
      (except PaymentsCheckJobChatAlreadyPresentError
         (_SendMessage [PAYMENT_TASK_ADD_CHAT_ERR_CMD]))).

Definition PaymentTaskRemoveChatCmd_ExecuteCommand
    : CommandData -> Comp Scheduler unit :=
  GroupChatOnly (fun self =>
    try_except
      (RemoveChat (cmd_chat self);;;
       _SendMessage [PAYMENT_TASK_REMOVE_CHAT_OK_CMD])%comp
      (except PaymentsCheckJobChatNotPresentError
         (_SendMessage [PAYMENT_TASK_REMOVE_CHAT_ERR_CMD]))).

Definition PaymentTaskRemoveAllChatsCmd_ExecuteCommand (self : CommandData)
    : Comp Scheduler unit :=
  (RemoveAllChats;;; _SendMessage [PAYMENT_TASK_REMOVE_ALL_CHATS_CMD])%comp.

(** The PaymentTask commands, and the handler of each. *)
Inductive Command : Type :=
| PaymentTaskStartCmd
| PaymentTaskStopCmd
| PaymentTaskAddChatCmd
| PaymentTaskRemoveChatCmd
| PaymentTaskRemoveAllChatsCmd.

Definition _ExecuteCommand (cmd : Command) : CommandData -> Comp Scheduler unit :=
  match cmd with
  | PaymentTaskStartCmd => PaymentTaskStartCmd_ExecuteCommand
  | PaymentTaskStopCmd => PaymentTaskStopCmd_ExecuteCommand
  | PaymentTaskAddChatCmd => PaymentTaskAddChatCmd_ExecuteCommand
  | PaymentTaskRemoveChatCmd => PaymentTaskRemoveChatCmd_ExecuteCommand
  | PaymentTaskRemoveAllChatsCmd => PaymentTaskRemoveAllChatsCmd_ExecuteCommand
  end.

(** *** Runs of the scheduler *)

(** What can happen to a scheduler: a call of one of its operations, a
    command, or the periodic timer firing, which begins a reconciliation
    tick. *)
Inductive event : Type :=
| EvStart (p : Z)
| EvStop
| EvAddChat (chat : Chat)
| EvRemoveChat (chat : Chat)
| EvRemoveAllChats
| EvCommand (cmd : Command) (self : CommandData)
| EvTick.

(** The events that ask the scheduler to start. *)
Definition asks_to_start (ev : event) : bool :=
  match ev with
  | EvStart _ | EvCommand PaymentTaskStartCmd _ => true
  | _ => false
  end.

(** The state an operation leaves, whether it returned or raised. *)
Definition after {R} (m : Comp Scheduler R) (s : Scheduler) : option Scheduler :=
  match m s with
  | Some (_, s') => Some s'
  | None => None
  end.

(** Modelled from the spec: the tick fires every period while a periodic job
    is scheduled, and only then. [None]: the event cannot happen in [s]. *)
Definition run_event (ev : event) (s : Scheduler) : option Scheduler :=
  match ev with
  | EvStart p => after (Start p) s
  | EvStop => after Stop s
  | EvAddChat chat => after (AddChat chat) s
  | EvRemoveChat chat => after (RemoveChat chat) s
  | EvRemoveAllChats => after RemoveAllChats s
  | EvCommand cmd self => after (_ExecuteCommand cmd self) s
  | EvTick => match timer s with Some _ => Some s | None => None end
  end.

Fixpoint run_events (evs : list event) (s : Scheduler) : option Scheduler :=
  match evs with
  | [] => Some s
  | ev :: evs' =>
      match run_event ev s with
      | Some s' => run_events evs' s'
      | None => None
      end
  end.

(** The registry of a scheduler: the chat identifiers it holds, in order. *)
Definition registry (s : Scheduler) : list Z :=
  items (job_chats s) (chat_lists s).

(** [same_but_sent s s']: [s'] differs from [s] by what was sent at most. *)
Definition same_but_sent (s s' : Scheduler) : Prop :=
  chat_lists s' = chat_lists s
  /\ status s' = status s
  /\ period s' = period s
  /\ timer s' = timer s
  /\ job_chats s' = job_chats s.

(** The events that are calls of the operations of the scheduler. *)
Definition is_operation (ev : event) : bool :=
  match ev with
  | EvCommand _ _ | EvTick => false
  | _ => true
  end.

(** The data-model invariant: the timer runs at the period, there is a
    period exactly when the scheduler is [Running], and no chat is
    registered twice. *)
Definition consistent (s : Scheduler) : Prop :=
  timer s = period s
  /\ (status s = Stopped <-> period s = None)
  /\ NoDup (registry s).

End PaymentsCheckScheduler.

(** ** Platforms used in the scenarios *)

(** A platform whose state is the list of members of the chat still matching,
    and whose kicker reports the first [cap] of them in one pass; they are
    removed unless test mode is on. *)
Definition capped_kick (cap : nat)
    : Config -> Chat -> list Member -> outcome (list Member) * list Member :=
  fun cfg _ matching =>
    (Return (take cap matching),
     if APP_TEST_MODE cfg then matching else drop cap matching).

(** A platform whose state is the list of what the coming passes will do. *)
Definition scripted_kick
    : Config -> Chat -> list (outcome (list Member))
      -> outcome (list Member) * list (outcome (list Member)) :=
  fun _ _ script =>
    match script with
    | [] => (Return [], [])
    | r :: script' => (r, script')
    end.

(** A platform whose state is the list of the chats the kicker was called
    for; the kicker fails for the chat [bad] and kicks one member from any
    other chat. *)
Definition failing_kick (bad : Z) (kicked : Member)
    : Config -> Chat -> list Z -> outcome (list Member) * list Z :=
  fun _ chat calls =>
    if chat_id chat =? bad
    then (Raise PlatformError, calls ++ [chat_id chat])
    else (Return [kicked], calls ++ [chat_id chat]).

Definition member_a : Member := {| user_id := 1; user_name := "a" |}.
Definition member_b : Member := {| user_id := 2; user_name := "b" |}.
Definition member_c : Member := {| user_id := 3; user_name := "c" |}.
Definition member_d : Member := {| user_id := 4; user_name := "d" |}.
Definition member_e : Member := {| user_id := 5; user_name := "e" |}.

Definition group_chat : Chat :=
  {| chat_id := 100; chat_type := "supergroup"; chat_title := Some "Members"%string |}.

(** A command issued in [group_chat]. *)
Definition group_command : CommandData :=
  {| cmd_chat := group_chat; cmd_private := false; cmd_params := [] |}.

(** A world with nothing sent, logged or allocated yet. *)
Definition fresh_world {Platform : Type} (test_mode : bool) (chat_ids : list Z)
    (p : Platform) : World Platform :=
  {| config := {| APP_TEST_MODE := test_mode;
                  PAYMENT_CHECK_PERIOD_SEC := 3600;
                  PAYMENT_CHECK_CHAT_IDS := chat_ids |};
     objects := ∅; platform := p; outbox := []; log := [] |}.

(** The chat built by the periodic check for an identifier. *)
Definition supergroup (chat_id : Z) : Chat :=
  {| chat_id := chat_id; chat_type := "supergroup"; chat_title := None |}.

(** Fault isolation of the tick, as a property the tick might have: with
    three chats of which the second makes the kicker fail and the others do
    not, the tick ends with a record of the members kicked for the first and
    for the third chat. *)
Definition tick_isolates_failures : Prop :=
  forall (Platform : Type)
         (kick_pass : Config -> Chat -> Platform -> outcome (list Member) * Platform)
         (w : World Platform) (c1 c2 c3 : Z),
    PAYMENT_CHECK_CHAT_IDS (config w) = [c1; c2; c3] ->
    c1 <> c2 -> c3 <> c2 ->
    (forall cfg p, exists p',
        kick_pass cfg (supergroup c2) p = (Raise PlatformError, p')) ->
    (forall cfg p c, c <> c2 -> exists ms p',
        kick_pass cfg (supergroup c) p = (Return ms, p')) ->
    exists o w',
      __PaymentsCheckTask kick_pass w = Some (o, w')
      /\ (exists n, LogKickedCount c1 n ∈ log w')
      /\ (exists n, LogKickedCount c3 n ∈ log w').

(** [passes_return kick_pass cfg chat outs p p']: starting from platform [p],
    the successive passes over [chat] return the non-empty lists [outs] and
    leave the platform in [p']. *)
Fixpoint passes_return {Platform : Type}
    (kick_pass : Config -> Chat -> Platform -> outcome (list Member) * Platform)
    (cfg : Config) (chat : Chat) (outs : list (list Member))
    (p p' : Platform) : Prop :=
  match outs with
  | [] => p = p'
  | ms :: outs' =>
      ms <> [] /\
      exists p1, kick_pass cfg chat p = (Return ms, p1)
                 /\ passes_return kick_pass cfg chat outs' p1 p'
  end.

(** ** WrappedList: access by index *)

(** The outcome of an access by index: the item, or Python's [IndexError]. *)
Inductive indexed (R : Type) : Type :=
| Item (r : R)
| IndexError.
Arguments Item {R} r.
Arguments IndexError {R}.

(** The position an integer index denotes in a list of length [n]: indices
    count from the end when negative; outside [-n, n) there is none. *)
Definition py_index (n : nat) (key : Z) : option nat :=
  if (0 <=? key) && (key <? Z.of_nat n) then Some (Z.to_nat key)
  else if (- Z.of_nat n <=? key) && (key <? 0) then Some (Z.to_nat (key + Z.of_nat n))
  else None.

Section Indexing.
Context {A : Type}.

(** [self.list_elements[key]], for an integer [key]. *)
Definition __getitem__ (self : WrappedList) (key : Z) (h : heap A) : indexed A :=
  match py_index (length (items self h)) key with
  | Some i =>
      match items self h !! i with
      | Some x => Item x
      | None => IndexError
      end
  | None => IndexError
  end.

(** [self.list_elements[key] = value]; the store is returned changed, or
    [IndexError] with the store left as it was. *)
Definition __setitem__ (self : WrappedList) (key : Z) (value : A) (h : heap A)
    : indexed (heap A) :=
  match py_index (length (items self h)) key with
  | Some i => Item (<[list_elements self := <[i := value]> (items self h)]> h)
  | None => IndexError
  end.

(** [del self.list_elements[key]] *)
Definition __delitem__ (self : WrappedList) (key : Z) (h : heap A)
    : indexed (heap A) :=
  match py_index (length (items self h)) key with
  | Some i => Item (<[list_elements self := delete i (items self h)]> h)
  | None => IndexError
  end.

End Indexing.

(** ** WrappedList: Sort *)

Section Sorting.
Context {A K : Type}.

(** Python's [<] on the elements and on the keys; it is taken to answer for
    every pair (no [TypeError]). *)
Variable lt_elem : A -> A -> bool.
Variable lt_key : K -> K -> bool.

(** The comparison [list.sort] makes between two elements: of their keys
    when a key function is given, of the elements themselves otherwise. *)
Definition sort_lt (key : option (A -> K)) (x y : A) : bool :=
  match key with
  | Some f => lt_key (f x) (f y)
  | None => lt_elem x y
  end.

(** [x] put into an ordered list, after the items it is not smaller than. *)
Fixpoint insert_ordered (lt : A -> A -> bool) (x : A) (l : list A) : list A :=
  match l with
  | [] => [x]
  | y :: l' => if lt x y then x :: y :: l' else y :: insert_ordered lt x l'
  end.

(** A stable sort: the items are put in one by one, from the left, each
    after the items it is not smaller than. For a comparison that is a
    strict weak order every stable sort gives this list. *)
Definition stable_sort (lt : A -> A -> bool) (l : list A) : list A :=
  foldl (fun sorted x => insert_ordered lt x sorted) [] l.

(** [l.sort(key=key, reverse=reverse)]: the sort is stable; with [reverse]
    the list is reversed, sorted and reversed again. *)
Definition py_sort (key : option (A -> K)) (reverse : bool) (l : list A) : list A :=
  if reverse then rev (stable_sort (sort_lt key) (rev l))
  else stable_sort (sort_lt key) l.

Definition Sort (self : WrappedList) (key : option (A -> K)) (reverse : bool)
    : Method unit :=
  fun h =>
    Some (Return tt,
          <[list_elements self := py_sort key reverse (items self h)]> h).

End Sorting.

(** ** translation_loader.py *)

Module TranslationLoader.

(** What the loader can raise: [FileNotFoundError] and [ParseError] from
    [ElementTree.parse], [KeyError] from a lookup in a dictionary,
    [AttributeError] from [.replace] on a text that is [None]. *)
Inductive error : Type :=
| FileNotFoundError
| ParseError
| KeyError (key : string)
| AttributeError.

(** An element of the parsed file: its tag, its attributes and its text,
    [None] when the element is empty. *)
Record Element : Type := {
  tag : string;
  attrib : gmap string string;
  text : option string
}.

(** What [ElementTree.parse(file_name).getroot()] gives: the children of the
    root, or one of the two failures of [parse]. *)
Inductive parsed : Type :=
| Root (children : list Element)
| NotFound
| Malformed.

(** The records written to the logger. *)
Inductive LoaderLog : Type :=
| InfoLoading (file_name : string)
| ErrorNotFound (file_name : string)
| InfoLoadingDefault
| DebugLoaded (sentence_id : string) (sentence : string)
| InfoLoaded (count : nat).

(** Constants for translation loader class *)
Definition SENTENCE_XML_TAG : string := "sentence".

(** The loader: its dictionary of sentences, and what it has logged. *)
Record TranslationLoader : Type := {
  sentences : gmap string string;
  logged : list LoaderLog
}.

(** [__init__]: [self.sentences = {}] *)
Definition TranslationLoader_init : TranslationLoader :=
  {| sentences := ∅; logged := [] |}.

Definition logger (r : LoaderLog) (self : TranslationLoader) : TranslationLoader :=
  {| sentences := sentences self; logged := logged self ++ [r] |}.

(** [s.replace(old, new)] for a non-empty [old], from the left and without
    overlap: [skip] is the number of characters of a match still to pass. *)
Fixpoint replace_from (skip : nat) (old new s : string) : string :=
  match s with
  | EmptyString => EmptyString
  | String c s' =>
      match skip with
      | S skip' => replace_from skip' old new s'
      | O =>
          if String.prefix old s
          then new +:+ replace_from (String.length old - 1) old new s'
          else String c (replace_from 0 old new s')
      end
  end.

(** [s.replace("", new)]: [new] before every character and at the end. *)
Fixpoint intersperse (new s : string) : string :=
  match s with
  | EmptyString => new
  | String c s' => new +:+ String c (intersperse new s')
  end.

(** [s.replace(old, new)] *)
Definition py_replace (old new s : string) : string :=
  match old with
  | EmptyString => intersperse new s
  | _ => replace_from 0 old new s
  end.

(** Whether the character [c] occurs in [s]. *)
Fixpoint occurs (c : ascii) (s : string) : bool :=
  match s with
  | EmptyString => false
  | String d s' => Ascii.eqb c d || occurs c s'
  end.

(** The newline character. *)
Definition newline : string := String (ascii_of_nat 10) EmptyString.

Section Loader.

(** [str(value)] for the values of the placeholders. *)
Context {V : Type}.
Variable str : V -> string.

(** [ElementTree.parse] on the files there are, and the path of the default
    language file. *)
Variable parse : string -> parsed.
Variable def_file_path : string.

(** [GetSentence]; [placeholders] is the dictionary as the list of its items,
    in the order of iteration. *)
Definition GetSentence (self : TranslationLoader) (sentence_id : string)
    (placeholders : option (list (string * V))) : error + string :=
  match sentences self !! sentence_id with
  | None => inl (KeyError sentence_id)
  | Some sentence =>
      match placeholders with
      | None => inr sentence
      | Some items =>
          inr (foldl
                 (fun sentence item =>
                    py_replace ("{" +:+ fst item +:+ "}") (str (snd item)) sentence)
                 sentence items)
      end
  end.

(** The [for] loop of [__LoadFile]; what was stored before an exception
    stays stored. *)
Fixpoint load_children (children : list Element) (self : TranslationLoader)
    : (error + unit) * TranslationLoader :=
  match children with
  | [] => (inr tt, self)
  | child :: children' =>
      if String.eqb (tag child) SENTENCE_XML_TAG then
        match attrib child !! "id" with
        | None => (inl (KeyError "id"), self)
        | Some sentence_id =>
            match text child with
            | None => (inl AttributeError, self)
            | Some t =>
                let sentence := py_replace "\n" newline t in
                load_children children'
                  {| sentences := <[sentence_id := sentence]> (sentences self);
                     logged := logged self ++ [DebugLoaded sentence_id sentence] |}
            end
        end
      else load_children children' self
  end.

Definition __LoadFile (file_name : string) (self : TranslationLoader)
    : (error + unit) * TranslationLoader :=
  match parse file_name with
  | NotFound => (inl FileNotFoundError, self)
  | Malformed => (inl ParseError, self)
  | Root children =>
      match load_children children self with
      | (inr _, self') =>
          (inr tt, logger (InfoLoaded (size (sentences self'))) self')
      | (inl e, self') => (inl e, self')
      end
  end.

Definition Load (file_name : option string) (self : TranslationLoader)
    : (error + unit) * TranslationLoader :=
  match file_name with
  | Some file_name =>
      match __LoadFile file_name (logger (InfoLoading file_name) self) with
      | (inl FileNotFoundError, self') =>
          __LoadFile def_file_path (logger (ErrorNotFound file_name) self')
      | r => r
      end
  | None => __LoadFile def_file_path (logger InfoLoadingDefault self)
  end.

End Loader.

(** The dictionary after one element that loads: a sentence with an id and
    a text is stored, any other element is passed over. *)
Definition store_child (m : gmap string string) (child : Element)
    : gmap string string :=
  if String.eqb (tag child) SENTENCE_XML_TAG then
    match attrib child !! "id", text child with
    | Some sentence_id, Some t => <[sentence_id := py_replace "\n" newline t]> m
    | _, _ => m
    end
  else m.

(** The dictionary after the [for] loop of [__LoadFile] over elements that
    all load. *)
Definition loaded (children : list Element) (m : gmap string string)
    : gmap string string :=
  foldl store_child m children.

(** An element the loop can load: a sentence has an ["id"] and a text. *)
Definition loadable (child : Element) : Prop :=
  tag child = SENTENCE_XML_TAG ->
  is_Some (attrib child !! "id") /\ is_Some (text child).

(** [names child sentence_id]: the element is a sentence with that id. *)
Definition names (child : Element) (sentence_id : string) : Prop :=
  tag child = SENTENCE_XML_TAG /\ attrib child !! "id" = Some sentence_id.

End TranslationLoader.

(** ** commands.py: the time left *)

Section MoreCommands.
Context {Platform : Type}.

(** [self.translator.GetSentence(sentence_id, **kwargs)]: the sentences come
    from a translation file that is not part of the sources, so the
    translator is a parameter; the keyword arguments are integers here. *)
Variable GetSentence : string -> list (string * Z) -> Message.

(** [CheckNoUsernameCmd.__HoursToStr] *)
Definition __HoursToStr (hours : Z) : Message :=
  if hours >? 47 then GetSentence "WITHIN_DAYS_MSG" [("days"%string, hours / 24)]
  else if hours >? 1 then GetSentence "WITHIN_HOURS_MSG" [("hours"%string, hours)]
  else GetSentence "ASAP_MSG" [].

End MoreCommands.

(** ** The periodic check, chat by chat *)

(** [checks_return kick_pass cfg chat_ids outs p p']: starting from platform
    [p], the passes over the chats [chat_ids], one pass for each chat in
    turn, return the lists [outs] and leave the platform in [p']. *)
Fixpoint checks_return {Platform : Type}
    (kick_pass : Config -> Chat -> Platform -> outcome (list Member) * Platform)
    (cfg : Config) (chat_ids : list Z) (outs : list (list Member))
    (p p' : Platform) : Prop :=
  match chat_ids, outs with
  | [], [] => p = p'
  | chat_id :: chat_ids', kicked :: outs' =>
      exists p1, kick_pass cfg (supergroup chat_id) p = (Return kicked, p1)
                 /\ checks_return kick_pass cfg chat_ids' outs' p1 p'
  | _, _ => False
  end.

(** What the periodic check logs for a chat whose pass returned [kicked]:
    that the chat is checked, the number of members kicked, and the members
    when there are any. *)
Definition check_records (chat_id : Z) (kicked : list Member) : list LogRecord :=
  [LogCheckingChat chat_id; LogKickedCount chat_id (Z.of_nat (length kicked))]
  ++ match kicked with
     | [] => []
     | _ => [LogKickedMembers kicked]
     end.

(** ** Lists and language files used in the scenarios *)

(** A store with one list, in which 20 occurs twice. *)
Definition numbers : heap Z := {[ 1%positive := [10; 20; 30; 20] ]}.

(** A store with two lists. *)
Definition two_lists : heap Z :=
  {[ 1%positive := [10]; 2%positive := [20; 30] ]}.

Definition first_list : WrappedList := {| list_elements := 1%positive |}.
Definition second_list : WrappedList := {| list_elements := 2%positive |}.

(** A store with a list of members that is not in the order of their ids. *)
Definition unordered_members : heap Member :=
  {[ 1%positive := [member_c; member_a; member_b] ]}.

(** A sentence element of a language file. *)
Definition sentence_element (sentence_id t : string) : TranslationLoader.Element :=
  {| TranslationLoader.tag := "sentence";
     TranslationLoader.attrib := {[ "id"%string := sentence_id ]};
     TranslationLoader.text := Some t |}.

(** The files there are: an Italian file that gives ALIVE_CMD twice, a file
    with a sentence that has no id, a file that is not well formed, and the
    default file. *)
Definition language_files (file_name : string) : TranslationLoader.parsed :=
  if String.eqb file_name "lang_it.xml" then
    TranslationLoader.Root
      [sentence_element "ALIVE_CMD" "Vivo";
       {| TranslationLoader.tag := "comment"; TranslationLoader.attrib := ∅;
          TranslationLoader.text := None |};
       sentence_element "ALIVE_CMD" "Sono vivo";
       sentence_element "HELLO_MSG" "Ciao {name}!"]
  else if String.eqb file_name "lang_bad.xml" then
    TranslationLoader.Root
      [sentence_element "ALIVE_CMD" "Alive";
       {| TranslationLoader.tag := "sentence"; TranslationLoader.attrib := ∅;
          TranslationLoader.text := Some "Lost"%string |};
       sentence_element "HELLO_MSG" "Hello {name}!"]
  else if String.eqb file_name "lang_broken.xml" then
    TranslationLoader.Malformed
  else if String.eqb file_name "lang/lang_en.xml" then
    TranslationLoader.Root
      [sentence_element "ALIVE_CMD" "I am alive";
       sentence_element "HELLO_MSG" "Hello {name}!"]
  else TranslationLoader.NotFound.

(** A loader that holds one sentence with a placeholder and one without. *)
Definition english_loader : TranslationLoader.TranslationLoader :=
  {| TranslationLoader.sentences :=
       {[ "HELLO_MSG"%string := "Hello {name}!"%string;
          "ALIVE_CMD"%string := "I am alive"%string ]};
     TranslationLoader.logged := [] |}.

(** [str(value)] for a value that is a string already. *)
Definition str_of_string (value : string) : string := value.

(** A command issued in a private chat. *)
Definition private_command : CommandData :=
  {| cmd_chat := {| chat_id := 7; chat_type := "private"; chat_title := None |};
     cmd_private := true; cmd_params := [] |}.

(** * Properties *)

(** ** The store and WrappedList *)

Section StoreFacts.
Context {A : Type} `{EqDecision A}.
Implicit Types (h : heap A) (self : WrappedList).

Lemma alloc_fresh (xs : list A) h l h' :
  alloc xs h = (l, h') -> (l ∉ dom h) /\ h' = <[l := xs]> h.
Proof.
  unfold alloc. intros [= <- <-]. split; [apply is_fresh | reflexivity].
Qed.

Lemma alloc_lookup (xs : list A) h l h' :
  alloc xs h = (l, h') -> h' !!! l = xs.
Proof.
  intros [_ ->]%alloc_fresh. apply lookup_total_insert_eq.
Qed.

Lemma alloc_other (xs : list A) h l h' k :
  alloc xs h = (l, h') -> k ∈ dom h -> k ≠ l /\ h' !!! k = h !!! k /\ k ∈ dom h'.
Proof.
  intros [Hl ->]%alloc_fresh Hk.
  assert (k ≠ l) as Hne by (intros ->; contradiction).
  split; [exact Hne|]. split.
  - apply lookup_total_insert_ne. congruence.
  - rewrite dom_insert_L. set_solver.
Qed.

Lemma py_extend_self dst src h :
  py_extend dst src h !!! dst = h !!! dst ++ h !!! src.
Proof. unfold py_extend. apply lookup_total_insert_eq. Qed.

Lemma py_extend_dom dst src h k :
  k ∈ dom h -> k ∈ dom (py_extend dst src h).
Proof. unfold py_extend. rewrite dom_insert_L. set_solver. Qed.

Lemma Count_items self h :
  Count self h = Some (Return (Z.of_nat (length (items self h))), h).
Proof. reflexivity. Qed.

Lemma Any_items self h :
  Any self h
  = Some (Return (match items self h with [] => false | _ => true end), h).
Proof.
  unfold Any, bind, ret. rewrite Count_items. do 3 f_equal.
  destruct (items self h); [reflexivity|].
  rewrite Z.gtb_ltb. apply Z.ltb_lt. simpl length. lia.
Qed.

(** C9. [w.AddMultiple(e)] with [e] a [WrappedList] and
    [w.AddMultiple(e.GetList())] are the same computation on every store:
    same outcome, same final store, hence the same final element list of
    [w], which is the old one followed by the elements of [e]. The two
    objects may be one and the same. *)
Theorem AddMultiple_branches_agree (w e : WrappedList) (h : heap A) :
  AddMultiple w (inr e) h
  = (let* l := GetList e in AddMultiple w (inl l))%comp h
  /\ exists h',
       AddMultiple w (inr e) h = Some (Return tt, h')
       /\ items w h' = items w h ++ items e h.
Proof.
  split; [reflexivity|].
  eexists. split; [reflexivity|].
  unfold items. apply py_extend_self.
Qed.

(** C10. On every store, [Count], [Any] and [Empty] return without raising
    and leave the store as it was; [Any] holds exactly when the count is
    positive, [Empty] exactly when it is zero, and [Any] is the negation of
    [Empty]. *)
Theorem Any_Empty_Count (w : WrappedList) (h : heap A) :
  exists (n : Z) (any empty : bool),
    Count w h = Some (Return n, h)
    /\ Any w h = Some (Return any, h)
    /\ Empty w h = Some (Return empty, h)
    /\ n = Z.of_nat (length (items w h))
    /\ (any = true <-> n > 0)
    /\ (empty = true <-> n = 0)
    /\ any = negb empty.
Proof.
  exists (Z.of_nat (length (items w h))),
    (Z.of_nat (length (items w h)) >? 0),
    (Z.of_nat (length (items w h)) =? 0).
  repeat split; try reflexivity.
  - intros H0. apply Z.gtb_lt in H0. lia.
  - intros H0. apply Z.gtb_lt. lia.
  - apply Z.eqb_eq.
  - apply Z.eqb_eq.
  - rewrite Z.gtb_ltb.
    destruct (Z.eqb_spec (Z.of_nat (length (items w h))) 0) as [->|Hne]; simpl.
    + reflexivity.
    + apply Z.ltb_lt. lia.
Qed.

End StoreFacts.

(** ** Loops *)

Lemma while_not_finished_more_fuel {St} (body : Comp St bool) (fuel fuel' : nat)
    (s : St) (r : outcome nat * St) :
  while_not_finished fuel body s = Some r ->
  (fuel <= fuel')%nat ->
  while_not_finished fuel' body s = Some r.
Proof.
  revert fuel' s r.
  induction fuel as [|fuel IH]; intros fuel' s r Hrun Hle; [discriminate|].
  destruct fuel' as [|fuel']; [lia|].
  simpl in *.
  destruct (body s) as [[[[|]|e] s']|]; try exact Hrun.
  destruct (while_not_finished fuel body s') as [r'|] eqn:Hrec; [|discriminate].
  rewrite (IH fuel' s' r' Hrec) by lia. exact Hrun.
Qed.

Lemma while_not_finished_S {St} (body : Comp St bool) (fuel : nat) (s : St) :
  while_not_finished (S fuel) body s
  = match body s with
    | Some (Return true, s') => Some (Return 1%nat, s')
    | Some (Return false, s') =>
        match while_not_finished fuel body s' with
        | Some (Return n, s'') => Some (Return (S n), s'')
        | r => r
        end
    | Some (Raise e, s') => Some (Raise e, s')
    | None => None
    end.
Proof. reflexivity. Qed.

Lemma while_iterations_le_fuel {St} (body : Comp St bool) (fuel n : nat)
    (s s' : St) :
  while_not_finished fuel body s = Some (Return n, s') -> (n <= fuel)%nat.
Proof.
  revert n s s'.
  induction fuel as [|fuel IH]; intros n s s' Hrun; [discriminate|].
  simpl in Hrun.
  destruct (body s) as [[[[|]|e] s1]|]; try discriminate.
  - injection Hrun as <- _. lia.
  - destruct (while_not_finished fuel body s1) as [[[m|e] s2]|] eqn:Hrec;
      try discriminate.
    injection Hrun as <- _. apply IH in Hrec. lia.
Qed.

Lemma while_needs_fuel {St} (body : Comp St bool) (fuel n : nat) (s s' : St) :
  while_not_finished n body s = Some (Return n, s') ->
  (fuel < n)%nat ->
  while_not_finished fuel body s = None.
Proof.
  intros Hrun Hlt.
  destruct (while_not_finished fuel body s) as [r|] eqn:Hfuel; [|reflexivity].
  pose proof (while_not_finished_more_fuel body fuel n s r Hfuel) as Hmore.
  rewrite Hmore in Hrun by lia. injection Hrun as ->.
  apply while_iterations_le_fuel in Hfuel. lia.
Qed.

(** ** The bulk eviction loop *)

Section EvictionFacts.
Context {Platform : Type}.
Variable kick_pass :
  Config -> Chat -> Platform -> outcome (list Member) * Platform.

Implicit Types (w : World Platform) (self : CommandData) (k : WrappedList).

(** A pass that raises ends the iteration with the exception; only the
    platform has changed. *)
Lemma kick_iteration_raises self k w e p :
  kick_pass (config w) (cmd_chat self) (platform w) = (Raise e, p) ->
  kick_iteration kick_pass self k w = Some (Raise e, set_platform p w).
Proof.
  intros Hk. unfold kick_iteration, bind, KickAllWithExpiredPayment.
  rewrite Hk. reflexivity.
Qed.

(** A pass that returns [ms] appends [ms] to [kicked_members]; the loop is
    finished when [ms] is empty, and otherwise when test mode is on. *)
Lemma kick_iteration_returns self k w ms p :
  kick_pass (config w) (cmd_chat self) (platform w) = (Return ms, p) ->
  list_elements k ∈ dom (objects w) ->
  exists h,
    kick_iteration kick_pass self k w
    = Some (Return (match ms with [] => true | _ => APP_TEST_MODE (config w) end),
            {| config := config w; objects := h; platform := p;
               outbox := outbox w; log := log w |})
    /\ items k h = items k (objects w) ++ ms
    /\ list_elements k ∈ dom h.
Proof.
  intros Hk Hdom. unfold kick_iteration, bind, KickAllWithExpiredPayment.
  rewrite Hk.
  destruct (alloc ms (objects w)) as [l h1] eqn:Ha.
  destruct (alloc_other _ _ _ _ _ Ha Hdom) as (Hne & Hsame & Hdom1).
  pose proof (alloc_lookup _ _ _ _ Ha) as Hl.
  unfold on_objects at 1. rewrite Any_items. cbn [objects set_platform set_objects].
  replace (items {| list_elements := l |} h1) with ms by (symmetry; exact Hl).
  destruct ms as [|m ms].
  - cbn. exists h1. split; [reflexivity|]. split; [|exact Hdom1].
    unfold items. rewrite Hsame, app_nil_r. reflexivity.
  - cbn. eexists. split; [reflexivity|]. split.
    + unfold items. rewrite py_extend_self. cbn [list_elements].
      rewrite Hsame, Hl. reflexivity.
    + apply py_extend_dom. exact Hdom1.
Qed.

(** The constructor call [ChatMembersList()] gives a new, empty list. *)
Lemma ChatMembersList_new w :
  exists k h,
    ChatMembersList w = Some (Return k, set_objects h w)
    /\ items k h = []
    /\ list_elements k ∈ dom h.
Proof.
  unfold ChatMembersList, on_objects, WrappedList_init.
  destruct (alloc [] (objects w)) as [l h] eqn:Ha.
  exists {| list_elements := l |}, h.
  split; [reflexivity|]. split.
  - unfold items. apply (alloc_lookup _ _ _ _ Ha).
  - apply alloc_fresh in Ha as [_ ->]. rewrite dom_insert_L. set_solver.
Qed.

(** The loop proper, from any content of [kicked_members]: when every pass
    returns at most [N] of the members still matching and returns at least
    one while some remain, the loop ends with all of them appended. *)
Lemma while_evicts_all (N : nat) (matching : Platform -> nat) self cfg :
  APP_TEST_MODE cfg = false ->
  (forall p, exists ms p',
      kick_pass cfg (cmd_chat self) p = (Return ms, p')
      /\ (length ms <= N)%nat
      /\ matching p = (length ms + matching p')%nat
      /\ ((0 < matching p)%nat -> ms <> [])) ->
  forall (n : nat) w k,
    config w = cfg ->
    matching (platform w) = n ->
    list_elements k ∈ dom (objects w) ->
    exists (passes : nat) w' (rest : list Member),
      while_not_finished passes (kick_iteration kick_pass self k) w
      = Some (Return passes, w')
      /\ items k (objects w') = items k (objects w) ++ rest
      /\ length rest = n
      /\ matching (platform w') = 0%nat
      /\ outbox w' = outbox w
      /\ (1 <= passes <= n + 1)%nat
      /\ (n <= (passes - 1) * N)%nat.
Proof.
  intros Htest Hpass n.
  induction n as [n IH] using lt_wf_ind.
  intros w k Hcfg Hn Hdom.
  destruct (Hpass (platform w)) as (ms & p' & Hk & Hcap & Hcount & Hprogress).
  rewrite <- Hcfg in Hk.
  destruct (kick_iteration_returns self k w ms p' Hk Hdom) as (h & Hiter & Hitems & Hdom').
  destruct ms as [|m ms].
  - exists 1%nat, {| config := config w; objects := h; platform := p';
                     outbox := outbox w; log := log w |}, [].
    assert (n = 0%nat) as ->.
    { destruct n; [reflexivity|]. exfalso. apply Hprogress; [lia|reflexivity]. }
    rewrite while_not_finished_S, Hiter. cbn.
    simpl in Hcount.
    repeat split; try lia; try assumption.
  - assert (APP_TEST_MODE (config w) = false) as Hoff
      by (rewrite Hcfg; exact Htest).
    rewrite Hoff in Hiter.
    set (w1 := {| config := config w; objects := h; platform := p';
                  outbox := outbox w; log := log w |}) in *.
    destruct (IH (matching p')) with (w := w1) (k := k)
      as (passes & w' & rest & Hrun & Hrest & Hlen & Hnone & Hout & Hb1 & Hb2);
      try reflexivity; try assumption.
    { simpl in Hcount. lia. }
    exists (S passes), w', ((m :: ms) ++ rest).
    rewrite while_not_finished_S, Hiter. cbv beta iota. rewrite Hrun.
    simpl length in Hcap, Hcount.
    repeat split; try assumption; try lia.
    + rewrite Hrest. subst w1. cbn [objects]. rewrite Hitems, <- app_assoc.
      reflexivity.
    + rewrite length_app, Hlen. simpl length. lia.
    + replace (S passes - 1)%nat with (1 + (passes - 1))%nat by lia.
      rewrite Nat.mul_add_distr_r. lia.
Qed.

(** C1. When every pass returns at most [N] of the members still matching
    (the count [matching] drops by exactly the members returned) and returns
    at least one of them while some remain, then, test mode being off, the
    loop ends: with enough iterations allowed it returns [kicked_members]
    holding as many members as matched at the start, none matching are
    left, and the number of passes it needs is fixed, lies between 1 and
    the total plus one, and covers the total at [N] per pass. This holds
    for every total. *)
Theorem EvictAllMatching_terminates_with_all
    (N : nat) (matching : Platform -> nat) self w :
  APP_TEST_MODE (config w) = false ->
  (forall p, exists ms p',
      kick_pass (config w) (cmd_chat self) p = (Return ms, p')
      /\ (length ms <= N)%nat
      /\ matching p = (length ms + matching p')%nat
      /\ ((0 < matching p)%nat -> ms <> [])) ->
  exists (passes : nat) (kicked_members : WrappedList) w',
    (forall fuel, (passes <= fuel)%nat ->
       EvictAllMatching kick_pass fuel self w
       = Some (Return (kicked_members, passes), w'))
    /\ (forall fuel, (fuel < passes)%nat ->
          EvictAllMatching kick_pass fuel self w = None)
    /\ length (items kicked_members (objects w')) = matching (platform w)
    /\ matching (platform w') = 0%nat
    /\ (1 <= passes <= matching (platform w) + 1)%nat
    /\ (matching (platform w) <= (passes - 1) * N)%nat.
Proof.
  intros Htest Hpass.
  destruct (ChatMembersList_new w) as (k & h & Hnew & Hempty & Hdom).
  destruct (while_evicts_all N matching self (config w) Htest Hpass
              (matching (platform w)) (set_objects h w) k)
    as (passes & w' & rest & Hrun & Hrest & Hlen & Hnone & _ & Hb1 & Hb2);
    try reflexivity; try assumption.
  exists passes, k, w'.
  repeat split; try assumption; try lia.
  - intros fuel Hfuel. unfold EvictAllMatching, bind. rewrite Hnew.
    rewrite (while_not_finished_more_fuel _ _ _ _ _ Hrun Hfuel). reflexivity.
  - intros fuel Hfuel. unfold EvictAllMatching, bind. rewrite Hnew.
    rewrite (while_needs_fuel _ _ _ _ _ Hrun Hfuel). reflexivity.
  - rewrite Hrest. cbn [objects set_objects]. rewrite Hempty. exact Hlen.
Qed.

(** C2. In test mode, when the pass made from the starting platform reports
    the non-empty list [c] and leaves the platform as it was, the loop ends
    after exactly one pass, whatever number of iterations it is allowed,
    and [kicked_members] holds exactly [c]. *)
Theorem EvictAllMatching_test_mode_one_pass self w (c : list Member) :
  APP_TEST_MODE (config w) = true ->
  c <> [] ->
  kick_pass (config w) (cmd_chat self) (platform w) = (Return c, platform w) ->
  exists (kicked_members : WrappedList) w',
    (forall fuel, (1 <= fuel)%nat ->
       EvictAllMatching kick_pass fuel self w
       = Some (Return (kicked_members, 1%nat), w'))
    /\ items kicked_members (objects w') = c
    /\ platform w' = platform w
    /\ config w' = config w
    /\ outbox w' = outbox w.
Proof.
  intros Htest Hc Hk.
  destruct (ChatMembersList_new w) as (k & h & Hnew & Hempty & Hdom).
  destruct (kick_iteration_returns self k (set_objects h w) c (platform w) Hk Hdom)
    as (h' & Hiter & Hitems & _).
  cbn [config set_objects objects outbox log] in Hiter, Hitems.
  rewrite Hempty in Hitems. simpl in Hitems.
  destruct c as [|m c]; [congruence|]. rewrite Htest in Hiter.
  pose proof (while_not_finished_S (kick_iteration kick_pass self k) 0
                (set_objects h w)) as Hrun.
  rewrite Hiter in Hrun. cbv beta iota in Hrun.
  exists k, {| config := config w; objects := h'; platform := platform w;
               outbox := outbox w; log := log w |}.
  split; [|repeat split; exact Hitems].
  intros fuel Hfuel. unfold EvictAllMatching, bind. rewrite Hnew.
  rewrite (while_not_finished_more_fuel _ _ _ _ _ Hrun Hfuel). reflexivity.
Qed.

(** Without the test-mode guard the same pass would be repeated for ever:
    no number of iterations is enough. *)
Lemma EvictAllMatching_needs_test_mode_guard self w (c : list Member) :
  APP_TEST_MODE (config w) = false ->
  c <> [] ->
  kick_pass (config w) (cmd_chat self) (platform w) = (Return c, platform w) ->
  forall fuel, EvictAllMatching kick_pass fuel self w = None.
Proof.
  intros Htest Hc Hk fuel.
  destruct (ChatMembersList_new w) as (k & h & Hnew & _ & Hdom).
  unfold EvictAllMatching, bind. rewrite Hnew.
  enough (forall w1, config w1 = config w -> platform w1 = platform w ->
                     list_elements k ∈ dom (objects w1) ->
                     while_not_finished fuel (kick_iteration kick_pass self k) w1
                     = None) as Hloop.
  { rewrite Hloop; [reflexivity..|exact Hdom]. }
  induction fuel as [|fuel IH]; intros w1 Hcfg Hp Hd; [reflexivity|].
  assert (kick_pass (config w1) (cmd_chat self) (platform w1)
          = (Return c, platform w1)) as Hk1 by (rewrite Hcfg, Hp; exact Hk).
  destruct (kick_iteration_returns self k w1 c (platform w1) Hk1 Hd)
    as (h' & Hiter & _ & Hd').
  destruct c as [|m c]; [congruence|].
  assert (APP_TEST_MODE (config w1) = false) as Hoff
    by (rewrite Hcfg; exact Htest).
  rewrite Hoff in Hiter.
  rewrite while_not_finished_S, Hiter. cbv beta iota.
  rewrite IH; [reflexivity|exact Hcfg|exact Hp|exact Hd'].
Qed.

(** The loop proper: after passes that returned non-empty lists, a pass that
    raises ends the loop with that exception. *)
Lemma while_raises (outs : list (list Member)) e :
  forall self w k (p1 p2 : Platform),
    APP_TEST_MODE (config w) = false \/ outs = [] ->
    passes_return kick_pass (config w) (cmd_chat self) outs (platform w) p1 ->
    kick_pass (config w) (cmd_chat self) p1 = (Raise e, p2) ->
    list_elements k ∈ dom (objects w) ->
    forall fuel, (length outs < fuel)%nat ->
    exists h,
      while_not_finished fuel (kick_iteration kick_pass self k) w
      = Some (Raise e,
              {| config := config w; objects := h; platform := p2;
                 outbox := outbox w; log := log w |}).
Proof.
  induction outs as [|ms outs IH];
    intros self w k p1 p2 Htest Hpasses Hk Hdom fuel Hfuel;
    (destruct fuel as [|fuel]; [simpl in Hfuel; lia|]).
  - simpl in Hpasses. subst p1.
    rewrite while_not_finished_S, (kick_iteration_raises _ _ _ _ _ Hk).
    exists (objects w). reflexivity.
  - destruct Htest as [Htest|]; [|discriminate].
    destruct Hpasses as (Hms & px & Hkx & Hpasses).
    destruct (kick_iteration_returns self k w ms px Hkx Hdom)
      as (h & Hiter & _ & Hdom').
    destruct ms as [|m ms]; [congruence|]. rewrite Htest in Hiter.
    rewrite while_not_finished_S, Hiter. cbv beta iota.
    edestruct (IH self {| config := config w; objects := h; platform := px;
                          outbox := outbox w; log := log w |} k p1 p2)
      as (h' & Hrun); [left; exact Htest|exact Hpasses|exact Hk|exact Hdom'| |].
    { simpl in Hfuel. apply Nat.succ_lt_mono. exact Hfuel. }
    rewrite Hrun. exists h'. reflexivity.
Qed.

(** C5. When a pass raises, be it the first or one that follows passes that
    returned members, the loop ends with that exception and no list of
    kicked members is returned; the command itself ends with the same
    exception, having sent only its notice: neither the completion message
    nor the list of the members already kicked is sent, and no invite link
    is made. *)
Theorem EvictAllMatching_failure_propagates
    (outs : list (list Member)) e self w (p1 p2 : Platform) :
  APP_TEST_MODE (config w) = false \/ outs = [] ->
  passes_return kick_pass (config w) (cmd_chat self) outs (platform w) p1 ->
  kick_pass (config w) (cmd_chat self) p1 = (Raise e, p2) ->
  forall fuel, (length outs < fuel)%nat ->
    (exists w',
        EvictAllMatching kick_pass fuel self w = Some (Raise e, w')
        /\ platform w' = p2
        /\ outbox w' = outbox w)
    /\ (cmd_private self = false ->
        exists w',
          RemoveNoPaymentCmd_ExecuteCommand kick_pass fuel self w
          = Some (Raise e, w')
          /\ platform w' = p2
          /\ outbox w'
             = outbox w
               ++ [SendMessage
                     [REMOVE_NO_PAYMENT_NOTICE_CMD (GetTitle (cmd_chat self))]]).
Proof.
  intros Htest Hpasses Hk fuel Hfuel.
  assert (forall w0, config w0 = config w -> platform w0 = platform w ->
            exists w', EvictAllMatching kick_pass fuel self w0 = Some (Raise e, w')
                       /\ platform w' = p2 /\ outbox w' = outbox w0) as Hloop.
  { intros w0 Hcfg Hp.
    destruct (ChatMembersList_new w0) as (k & h & Hnew & _ & Hdom).
    destruct (while_raises outs e self (set_objects h w0) k p1 p2) with (fuel := fuel)
      as (h' & Hrun); cbn [config platform objects set_objects];
      rewrite ?Hcfg, ?Hp; try assumption.
    unfold EvictAllMatching, bind. rewrite Hnew, Hrun.
    eexists. split; [reflexivity|]. split; reflexivity. }
  split.
  - apply Hloop; reflexivity.
  - intros Hgroup.
    unfold RemoveNoPaymentCmd_ExecuteCommand, GroupChatOnly. rewrite Hgroup.
    unfold RemoveNoPaymentCmd_body at 1.
    unfold bind at 1. cbn [_SendMessage World_CommandBase].
    match goal with
    | |- context [bind (EvictAllMatching _ _ _) ?f ?w0] =>
        destruct (Hloop w0) as (w' & Hrun & Hp' & Hout'); [reflexivity..|];
        unfold bind at 1; rewrite Hrun
    end.
    exists w'. split; [reflexivity|]. split; [exact Hp'|exact Hout'].
Qed.

Lemma EvictAllMatching_more_fuel self w fuel fuel' r :
  EvictAllMatching kick_pass fuel self w = Some r ->
  (fuel <= fuel')%nat ->
  EvictAllMatching kick_pass fuel' self w = Some r.
Proof.
  unfold EvictAllMatching, bind. intros Hrun Hle.
  destruct (ChatMembersList w) as [[[k|e] w0]|]; try exact Hrun.
  destruct (while_not_finished fuel _ w0) as [r0|] eqn:Hloop; [|discriminate].
  rewrite (while_not_finished_more_fuel _ _ _ _ _ Hloop Hle). exact Hrun.
Qed.

End EvictionFacts.

(** C4. Five matching members and a cap of two: the passes return [a, b],
    then [c, d], then [e], then nothing; the loop makes four passes, no fewer
    being enough, and [kicked_members] ends as [a, b, c, d, e]. *)
Theorem EvictAllMatching_five_members_cap_two :
  let cfg := config (fresh_world false [] ([] : list Member)) in
  let w := fresh_world false []
             [member_a; member_b; member_c; member_d; member_e] in
  capped_kick 2 cfg group_chat [member_a; member_b; member_c; member_d; member_e]
  = (Return [member_a; member_b], [member_c; member_d; member_e])
  /\ capped_kick 2 cfg group_chat [member_c; member_d; member_e]
     = (Return [member_c; member_d], [member_e])
  /\ capped_kick 2 cfg group_chat [member_e] = (Return [member_e], [])
  /\ capped_kick 2 cfg group_chat [] = (Return [], [])
  /\ exists (kicked_members : WrappedList) w',
       (forall fuel, (4 <= fuel)%nat ->
          EvictAllMatching (capped_kick 2) fuel group_command w
          = Some (Return (kicked_members, 4%nat), w'))
       /\ EvictAllMatching (capped_kick 2) 3 group_command w = None
       /\ items kicked_members (objects w')
          = [member_a; member_b; member_c; member_d; member_e]
       /\ platform w' = [].
Proof.
  intros cfg w. do 4 (split; [reflexivity|]).
  destruct (EvictAllMatching (capped_kick 2) 4 group_command w)
    as [[[[k n]|e] w']|] eqn:Hrun; try (vm_compute in Hrun; discriminate).
  exists k, w'.
  assert (n = 4%nat /\ items k (objects w')
                      = [member_a; member_b; member_c; member_d; member_e]
          /\ platform w' = []) as (-> & Hitems & Hp).
  { vm_compute in Hrun. injection Hrun as <- <- <-.
    repeat split; vm_compute; reflexivity. }
  split; [|split; [|split]].
  - intros fuel Hfuel. exact (EvictAllMatching_more_fuel _ _ _ _ _ _ Hrun Hfuel).
  - vm_compute. reflexivity.
  - exact Hitems.
  - exact Hp.
Qed.

(** The loop over the platform capped at two members per pass, for the
    totals 0, 2, 3 and 4: the passes made and the members kicked. *)
Lemma EvictAllMatching_cap_two_totals :
  let run (members : list Member) :=
    match EvictAllMatching (capped_kick 2) 5 group_command
            (fresh_world false [] members) with
    | Some (Return (kicked_members, passes), w') =>
        Some (passes, items kicked_members (objects w'), platform w')
    | _ => None
    end in
  run [] = Some (1%nat, [], [])
  /\ run [member_a; member_b]
     = Some (2%nat, [member_a; member_b], [])
  /\ run [member_a; member_b; member_c]
     = Some (3%nat, [member_a; member_b; member_c], [])
  /\ run [member_a; member_b; member_c; member_d]
     = Some (3%nat, [member_a; member_b; member_c; member_d], []).
Proof. repeat split; vm_compute; reflexivity. Qed.

(** ** The periodic check *)

Lemma for_each_app {St X} (xs ys : list X) (body : X -> Comp St unit) (s : St) :
  for_each (xs ++ ys) body s
  = (for_each xs body;;; for_each ys body)%comp s.
Proof.
  revert s. induction xs as [|x xs IH]; intros s; [reflexivity|].
  simpl. unfold bind.
  destruct (body x s) as [[[[]|e] s']|]; [|reflexivity..].
  rewrite IH. reflexivity.
Qed.

Section TickFacts.
Context {Platform : Type}.
Variable kick_pass :
  Config -> Chat -> Platform -> outcome (list Member) * Platform.

Implicit Types (w : World Platform).

(** A chat whose pass raises: the record that the check of the chat began
    is written, the platform is as the pass left it, and the exception
    leaves [check_chat]. *)
Lemma check_chat_raises w (c : Z) e p :
  kick_pass (config w) (supergroup c) (platform w) = (Raise e, p) ->
  check_chat kick_pass c w
  = Some (Raise e,
          {| config := config w; objects := objects w; platform := p;
             outbox := outbox w; log := log w ++ [LogCheckingChat c] |}).
Proof.
  intros Hk. unfold check_chat, bind, KickAllWithExpiredPayment. cbn.
  unfold supergroup in Hk. rewrite Hk. reflexivity.
Qed.

(** A chat whose pass returns: the count of the members kicked is logged,
    and their list when there are any. *)
Lemma check_chat_returns w (c : Z) ms p :
  kick_pass (config w) (supergroup c) (platform w) = (Return ms, p) ->
  exists h,
    check_chat kick_pass c w
    = Some (Return tt,
            {| config := config w; objects := h; platform := p;
               outbox := outbox w;
               log := log w
                      ++ [LogCheckingChat c;
                          LogKickedCount c (Z.of_nat (length ms))]
                      ++ match ms with
                         | [] => []
                         | _ => [LogKickedMembers ms]
                         end |}).
Proof.
  intros Hk. unfold check_chat, bind, KickAllWithExpiredPayment.
  cbn [logger_info config platform objects].
  unfold supergroup in Hk. rewrite Hk.
  destruct (alloc ms (objects w)) as [l h] eqn:Ha.
  pose proof (alloc_lookup _ _ _ _ Ha) as Hl.
  exists h.
  unfold on_objects at 1. rewrite Count_items.
  cbn [objects set_platform set_objects config platform outbox log].
  unfold on_objects at 1. cbn [objects]. rewrite Any_items.
  unfold ToString, items. cbn [list_elements objects]. rewrite Hl.
  destruct ms as [|m ms];
    cbv beta iota delta [ToString items logger_info ret list_elements objects
                         log config platform outbox];
    cbn; rewrite ?Hl, <- ?app_assoc; reflexivity.
Qed.

(** C3, as the code has it. An exception raised by the pass over a chat is
    not caught in the tick. When the chats before [c] were checked without
    failure, leaving [w1], and the pass over [c] raises [e], the tick ends
    with [e]: the log of [w1] has gained only the record that the check of
    [c] began, and the chats after [c] have no part in the result. *)
Theorem PaymentsCheckTask_stops_at_failing_chat
    w (pre post : list Z) (c : Z) e w1 p :
  PAYMENT_CHECK_CHAT_IDS (config w) = pre ++ c :: post ->
  (logger_info LogCheckStarted;;; for_each pre (check_chat kick_pass))%comp w
  = Some (Return tt, w1) ->
  kick_pass (config w1) (supergroup c) (platform w1) = (Raise e, p) ->
  __PaymentsCheckTask kick_pass w
  = Some (Raise e,
          {| config := config w1; objects := objects w1; platform := p;
             outbox := outbox w1; log := log w1 ++ [LogCheckingChat c] |}).
Proof.
  intros Hids Hpre Hk.
  unfold __PaymentsCheckTask. unfold bind at 1. unfold bind at 1 in Hpre.
  cbn [logger_info] in *. unfold bind at 1. cbn [GetValue config].
  rewrite Hids, for_each_app. unfold bind at 1. rewrite Hpre.
  cbn [for_each]. unfold bind at 1.
  rewrite (check_chat_raises _ _ _ _ Hk). reflexivity.
Qed.

End TickFacts.

(** The tick over the chats 1, 2, 3 when the kicker fails for chat 2: the
    exception leaves the tick, the kicker was called for the chats 1 and 2
    only, and the log holds the result of chat 1 and the start of chat 2. *)
Lemma PaymentsCheckTask_three_chats_second_fails :
  exists w',
    __PaymentsCheckTask (failing_kick 2 member_a) (fresh_world false [1; 2; 3] [])
    = Some (Raise PlatformError, w')
    /\ platform w' = [1; 2]
    /\ log w' = [LogCheckStarted;
                 LogCheckingChat 1; LogKickedCount 1 1; LogKickedMembers [member_a];
                 LogCheckingChat 2].
Proof.
  eexists. split; [vm_compute; reflexivity|]. split; reflexivity.
Qed.

(** C3, refuted as stated: the tick does not isolate the failure of a chat
    from the chats that follow it. *)
Lemma PaymentsCheckTask_does_not_isolate_failures : ~ tick_isolates_failures.
Proof.
  intros Hclaim.
  destruct (Hclaim (list Z) (failing_kick 2 member_a)
              (fresh_world false [1; 2; 3] []) 1 2 3)
    as (o & w' & Hrun & _ & n & Hthird); try reflexivity; try lia.
  - intros cfg p. eexists. reflexivity.
  - intros cfg p c Hc. unfold failing_kick, supergroup. cbn [chat_id].
    destruct (Z.eqb_spec c 2) as [->|_]; [contradiction|]. eauto.
  - destruct PaymentsCheckTask_three_chats_second_fails as (w2 & Hrun2 & _ & Hlog).
    rewrite Hrun2 in Hrun. injection Hrun as _ <-.
    rewrite Hlog in Hthird.
    repeat (apply elem_of_cons in Hthird as [Hthird|Hthird]; [discriminate|]).
    apply elem_of_nil in Hthird. exact Hthird.
Qed.

(** ** The scheduler and its chat registry *)

Section SchedulerFacts.
Import PaymentsCheckScheduler.

Implicit Types (s : Scheduler) (chat : Chat).

Lemma same_but_sent_consistent s s' :
  same_but_sent s s' -> consistent s -> consistent s'.
Proof.
  intros (Hh & Hst & Hp & Ht & Hj). unfold consistent, registry.
  rewrite Hh, Hst, Hp, Ht, Hj. trivial.
Qed.

Lemma remove_first_elem_of {A} `{EqDecision A} (x y : A) (xs : list A) :
  y ∈ remove_first x xs -> y ∈ xs.
Proof.
  induction xs as [|z xs IH]; simpl; [trivial|].
  destruct (decide (x = z)); rewrite !elem_of_cons; intuition.
Qed.

Lemma remove_first_NoDup {A} `{EqDecision A} (x : A) (xs : list A) :
  NoDup xs -> NoDup (remove_first x xs).
Proof.
  induction 1 as [|z xs Hz Hxs IH]; simpl; [constructor|].
  destruct (decide (x = z)); [exact Hxs|].
  constructor; [|exact IH].
  intros Hin. apply Hz. eapply remove_first_elem_of. exact Hin.
Qed.

Ltac run_scheduler :=
  unfold AddChat, RemoveChat, RemoveAllChats, GetChats, on_chat_lists,
    IsElem, AddSingle, RemoveSingle, Clear, bind, raise, ret,
    set_chat_lists, registry, items, py_contains, py_append, py_clear in *;
  cbn [chat_lists status period timer job_chats sent list_elements] in *.

Lemma AddChat_present s chat :
  chat_id chat ∈ registry s ->
  AddChat chat s = Some (Raise PaymentsCheckJobChatAlreadyPresentError, s).
Proof.
  destruct s. intros Hin. run_scheduler.
  rewrite bool_decide_eq_true_2 by exact Hin. reflexivity.
Qed.

Lemma AddChat_absent s chat :
  chat_id chat ∉ registry s ->
  exists h,
    AddChat chat s = Some (Return tt, set_chat_lists h s)
    /\ registry (set_chat_lists h s) = registry s ++ [chat_id chat].
Proof.
  destruct s. intros Hin. run_scheduler.
  rewrite bool_decide_eq_false_2 by exact Hin.
  eexists. split; [reflexivity|]. cbn.
  apply lookup_total_insert_eq.
Qed.

Lemma RemoveChat_absent s chat :
  chat_id chat ∉ registry s ->
  RemoveChat chat s = Some (Raise PaymentsCheckJobChatNotPresentError, s).
Proof.
  destruct s. intros Hin. run_scheduler.
  rewrite bool_decide_eq_false_2 by exact Hin. reflexivity.
Qed.

Lemma RemoveChat_present s chat :
  chat_id chat ∈ registry s ->
  exists h,
    RemoveChat chat s = Some (Return tt, set_chat_lists h s)
    /\ registry (set_chat_lists h s) = remove_first (chat_id chat) (registry s).
Proof.
  destruct s. intros Hin. run_scheduler.
  rewrite !bool_decide_eq_true_2 by exact Hin.
  eexists. split; [reflexivity|]. cbn.
  apply lookup_total_insert_eq.
Qed.

Lemma RemoveAllChats_clears s :
  exists h,
    RemoveAllChats s = Some (Return tt, set_chat_lists h s)
    /\ registry (set_chat_lists h s) = [].
Proof.
  destruct s. run_scheduler.
  eexists. split; [reflexivity|]. cbn.
  apply lookup_total_insert_eq.
Qed.

Lemma set_chat_lists_consistent h s :
  consistent s ->
  NoDup (items (job_chats s) h) ->
  consistent (set_chat_lists h s).
Proof. intros (Ht & Hp & _) Hnd. split; [exact Ht|]. split; [exact Hp|exact Hnd]. Qed.

Lemma Start_cases (p : Z) s :
  Start p s
  = match status s with
    | Running => Some (Raise PaymentsCheckJobAlreadyRunningError, s)
    | Stopped =>
        if p <=? 0 then Some (Raise PaymentsCheckJobInvalidPeriodError, s)
        else Some (Return tt,
                   {| chat_lists := chat_lists s; status := Running;
                      period := Some p; timer := Some p;
                      job_chats := job_chats s; sent := sent s |})
    end.
Proof. reflexivity. Qed.

(** Every operation keeps the invariant. *)
Lemma operation_consistent (ev : event) s s' :
  is_operation ev = true ->
  consistent s ->
  run_event ev s = Some s' ->
  consistent s'.
Proof.
  intros Hop Hs Hrun. pose proof Hs as (Ht & Hp & Hnd).
  destruct ev as [p| |chat|chat| |cmd self|]; try discriminate Hop;
    unfold run_event, after in Hrun.
  - rewrite Start_cases in Hrun.
    destruct (status s) eqn:Hst; [destruct (p <=? 0)|];
      injection Hrun as <-; try exact Hs.
    split; [reflexivity|]. split; [|exact Hnd]. cbn. split; discriminate.
  - unfold Stop in Hrun.
    destruct (status s) eqn:Hst; injection Hrun as <-; [exact Hs|].
    split; [reflexivity|]. split; [|exact Hnd]. cbn. split; reflexivity.
  - destruct (decide (chat_id chat ∈ registry s)) as [Hin|Hin].
    + rewrite (AddChat_present _ _ Hin) in Hrun. injection Hrun as <-. exact Hs.
    + destruct (AddChat_absent _ _ Hin) as (h & Hadd & Hreg).
      rewrite Hadd in Hrun. injection Hrun as <-.
      apply set_chat_lists_consistent; [exact Hs|].
      change (NoDup (registry (set_chat_lists h s))). rewrite Hreg.
      apply NoDup_app. split; [exact Hnd|]. split; [|apply NoDup_singleton].
      intros x Hx Hx'. apply list_elem_of_singleton in Hx'. subst x.
      contradiction.
  - destruct (decide (chat_id chat ∈ registry s)) as [Hin|Hin].
    + destruct (RemoveChat_present _ _ Hin) as (h & Hrem & Hreg).
      rewrite Hrem in Hrun. injection Hrun as <-.
      apply set_chat_lists_consistent; [exact Hs|].
      change (NoDup (registry (set_chat_lists h s))). rewrite Hreg.
      apply remove_first_NoDup. exact Hnd.
    + rewrite (RemoveChat_absent _ _ Hin) in Hrun. injection Hrun as <-.
      exact Hs.
  - destruct (RemoveAllChats_clears s) as (h & Hclr & Hreg).
    rewrite Hclr in Hrun. injection Hrun as <-.
    apply set_chat_lists_consistent; [exact Hs|].
    change (NoDup (registry (set_chat_lists h s))). rewrite Hreg. constructor.
Qed.

(** A command does what one call of an operation does, or nothing, to the
    scheduler, and sends a message. *)
Lemma command_effect (cmd : Command) (self : CommandData) s :
  exists s' s1,
    _ExecuteCommand cmd self s = Some (Return tt, s')
    /\ same_but_sent s1 s'
    /\ (s1 = s
        \/ exists ev,
             is_operation ev = true
             /\ (asks_to_start ev = true -> cmd = PaymentTaskStartCmd)
             /\ run_event ev s = Some s1).
Proof.
  destruct cmd; cbn [_ExecuteCommand].
  - unfold PaymentTaskStartCmd_ExecuteCommand, try_except_else, GetAsInt.
    destruct (cmd_params self !! 0%nat) as [[p|]|];
      try solve [eexists; exists s; split; [reflexivity|]; split;
                 [repeat split|left; reflexivity]].
    unfold ret, try_except, bind. rewrite Start_cases.
    destruct (status s) eqn:Hst; [destruct (p <=? 0) eqn:Hp|];
      try solve [eexists; exists s; split; [reflexivity|]; split;
                 [repeat split|left; reflexivity]].
    do 2 eexists. split; [reflexivity|]. split.
    2: { right. exists (EvStart p).
         split; [reflexivity|]. split; [reflexivity|].
         unfold run_event, after. rewrite Start_cases, Hst, Hp. reflexivity. }
    repeat split.
  - unfold PaymentTaskStopCmd_ExecuteCommand, try_except, bind, Stop.
    destruct (status s) eqn:Hst.
    + eexists; exists s. split; [reflexivity|]. split; [repeat split|left; reflexivity].
    + do 2 eexists. split; [reflexivity|]. split.
      2: { right. exists EvStop.
           split; [reflexivity|]. split; [discriminate|].
           unfold run_event, after, Stop. rewrite Hst. reflexivity. }
      repeat split.
  - unfold PaymentTaskAddChatCmd_ExecuteCommand, GroupChatOnly.
    destruct (cmd_private self).
    { eexists; exists s. split; [reflexivity|]. split; [repeat split|left; reflexivity]. }
    unfold try_except, bind.
    destruct (decide (chat_id (cmd_chat self) ∈ registry s)) as [Hin|Hin].
    + rewrite (AddChat_present _ _ Hin).
      eexists; exists s. split; [reflexivity|]. split; [repeat split|left; reflexivity].
    + destruct (AddChat_absent _ _ Hin) as (h & Hadd & _). rewrite Hadd.
      do 2 eexists. split; [reflexivity|]. split.
      2: { right. exists (EvAddChat (cmd_chat self)).
           split; [reflexivity|]. split; [discriminate|].
           unfold run_event, after. rewrite Hadd. reflexivity. }
      repeat split.
  - unfold PaymentTaskRemoveChatCmd_ExecuteCommand, GroupChatOnly.
    destruct (cmd_private self).
    { eexists; exists s. split; [reflexivity|]. split; [repeat split|left; reflexivity]. }
    unfold try_except, bind.
    destruct (decide (chat_id (cmd_chat self) ∈ registry s)) as [Hin|Hin].
    + destruct (RemoveChat_present _ _ Hin) as (h & Hrem & _). rewrite Hrem.
      do 2 eexists. split; [reflexivity|]. split.
      2: { right. exists (EvRemoveChat (cmd_chat self)).
           split; [reflexivity|]. split; [discriminate|].
           unfold run_event, after. rewrite Hrem. reflexivity. }
      repeat split.
    + rewrite (RemoveChat_absent _ _ Hin).
      eexists; exists s. split; [reflexivity|]. split; [repeat split|left; reflexivity].
  - unfold PaymentTaskRemoveAllChatsCmd_ExecuteCommand, bind.
    destruct (RemoveAllChats_clears s) as (h & Hclr & _). rewrite Hclr.
    do 2 eexists. split; [reflexivity|]. split.
    2: { right. exists EvRemoveAllChats.
         split; [reflexivity|]. split; [discriminate|].
         unfold run_event, after. rewrite Hclr. reflexivity. }
    repeat split.
Qed.

(** Every event keeps the invariant. *)
Lemma run_event_consistent (ev : event) s s' :
  consistent s -> run_event ev s = Some s' -> consistent s'.
Proof.
  intros Hs Hrun.
  destruct (is_operation ev) eqn:Hop.
  { exact (operation_consistent ev s s' Hop Hs Hrun). }
  destruct ev as [| | | | |cmd self|]; try discriminate Hop.
  - destruct (command_effect cmd self s) as (s2 & s1 & Hcmd & Hsame & Hs1).
    unfold run_event, after in Hrun. rewrite Hcmd in Hrun. injection Hrun as <-.
    apply (same_but_sent_consistent s1 s2 Hsame).
    destruct Hs1 as [->|(ev & Hev & _ & Hrun1)]; [exact Hs|].
    exact (operation_consistent ev s s1 Hev Hs Hrun1).
  - unfold run_event in Hrun. destruct (timer s); [|discriminate].
    injection Hrun as <-. exact Hs.
Qed.

Lemma run_events_consistent (evs : list event) s s' :
  consistent s -> run_events evs s = Some s' -> consistent s'.
Proof.
  revert s. induction evs as [|ev evs IH]; intros s Hs Hrun; simpl in Hrun.
  - injection Hrun as <-. exact Hs.
  - destruct (run_event ev s) as [s1|] eqn:Hev; [|discriminate].
    apply (IH s1); [|exact Hrun]. exact (run_event_consistent ev s s1 Hs Hev).
Qed.

Lemma new_scheduler_consistent : consistent new_scheduler.
Proof.
  split; [reflexivity|]. split; [split; reflexivity|].
  replace (registry new_scheduler) with (@nil Z) by (vm_compute; reflexivity).
  constructor.
Qed.

Lemma reachable_consistent (evs : list event) s :
  run_events evs new_scheduler = Some s -> consistent s.
Proof. apply run_events_consistent, new_scheduler_consistent. Qed.

(** An operation other than [Start] leaves a stopped scheduler stopped. *)
Lemma operation_keeps_stopped (ev : event) s s' :
  is_operation ev = true ->
  asks_to_start ev = false ->
  status s = Stopped -> timer s = None ->
  run_event ev s = Some s' ->
  status s' = Stopped /\ timer s' = None.
Proof.
  intros Hop Hq Hst Ht Hrun.
  destruct ev as [p| |chat|chat| |cmd self|]; try discriminate;
    unfold run_event, after in Hrun.
  - unfold Stop in Hrun. rewrite Hst in Hrun. injection Hrun as <-. auto.
  - destruct (decide (chat_id chat ∈ registry s)) as [Hin|Hin].
    + rewrite (AddChat_present _ _ Hin) in Hrun. injection Hrun as <-. auto.
    + destruct (AddChat_absent _ _ Hin) as (h & Hadd & _).
      rewrite Hadd in Hrun. injection Hrun as <-. auto.
  - destruct (decide (chat_id chat ∈ registry s)) as [Hin|Hin].
    + destruct (RemoveChat_present _ _ Hin) as (h & Hrem & _).
      rewrite Hrem in Hrun. injection Hrun as <-. auto.
    + rewrite (RemoveChat_absent _ _ Hin) in Hrun. injection Hrun as <-. auto.
  - destruct (RemoveAllChats_clears s) as (h & Hclr & _).
    rewrite Hclr in Hrun. injection Hrun as <-. auto.
Qed.

(** While nothing asks a stopped scheduler to start, it stays stopped and
    no tick begins. *)
Lemma quiet_event_keeps_stopped (ev : event) s s' :
  asks_to_start ev = false ->
  status s = Stopped -> timer s = None ->
  run_event ev s = Some s' ->
  ev <> EvTick /\ status s' = Stopped /\ timer s' = None.
Proof.
  intros Hq Hst Ht Hrun.
  destruct (is_operation ev) eqn:Hop.
  { split; [intros ->; discriminate|].
    exact (operation_keeps_stopped ev s s' Hop Hq Hst Ht Hrun). }
  destruct ev as [| | | | |cmd self|]; try discriminate Hop.
  - split; [discriminate|].
    destruct (command_effect cmd self s) as (s2 & s1 & Hcmd & Hsame & Hs1).
    unfold run_event, after in Hrun. rewrite Hcmd in Hrun. injection Hrun as <-.
    destruct Hsame as (_ & Hst2 & _ & Ht2 & _). rewrite Hst2, Ht2.
    destruct Hs1 as [->|(ev & Hev & Hstart & Hrun1)]; [auto|].
    apply (operation_keeps_stopped ev s s1 Hev); try assumption.
    destruct (asks_to_start ev); [|reflexivity].
    rewrite Hstart in Hq by reflexivity. discriminate.
  - unfold run_event in Hrun. rewrite Ht in Hrun. discriminate.
Qed.

Lemma no_tick_before_start (evs : list event) :
  forall s s',
    status s = Stopped -> timer s = None ->
    run_events evs s = Some s' ->
    forall i, evs !! i = Some EvTick ->
    exists j ev, (j < i)%nat /\ evs !! j = Some ev /\ asks_to_start ev = true.
Proof.
  induction evs as [|ev evs IH]; intros s s' Hst Ht Hrun i Hi; [discriminate|].
  simpl in Hrun.
  destruct (run_event ev s) as [s1|] eqn:Hev; [|discriminate].
  destruct (asks_to_start ev) eqn:Hq.
  - destruct i as [|i].
    + injection Hi as ->. discriminate.
    + exists 0%nat, ev. split; [lia|]. split; [reflexivity|exact Hq].
  - destruct (quiet_event_keeps_stopped ev s s1 Hq Hst Ht Hev) as (Hne & Hst1 & Ht1).
    destruct i as [|i]; [injection Hi as ->; contradiction|].
    destruct (IH s1 s' Hst1 Ht1 Hrun i Hi) as (j & ev' & Hj & Hev' & Hstart).
    exists (S j), ev'. split; [lia|]. split; assumption.
Qed.

(** C6. On a stopped scheduler, [Start] with a period that is zero or
    negative raises [PaymentsCheckJobInvalidPeriodError] and changes
    nothing: the scheduler is still [Stopped], with no period and no
    periodic job. The start command given such a period answers with the
    period error message and changes nothing else. *)
Theorem Start_rejects_nonpositive_period
    (evs : list event) s (p : Z) (self : CommandData) :
  run_events evs new_scheduler = Some s ->
  status s = Stopped ->
  p <= 0 ->
  (exists s',
      Start p s = Some (Raise PaymentsCheckJobInvalidPeriodError, s')
      /\ s' = s
      /\ status s' = Stopped /\ period s' = None /\ timer s' = None)
  /\ (cmd_params self !! 0%nat = Some (Some p) ->
      exists s',
        PaymentTaskStartCmd_ExecuteCommand self s = Some (Return tt, s')
        /\ sent s' = sent s ++ [SendMessage [TASK_PERIOD_ERR_MSG]]
        /\ same_but_sent s s'
        /\ status s' = Stopped /\ timer s' = None).
Proof.
  intros Hreach Hst Hp.
  destruct (reachable_consistent evs s Hreach) as (Ht & Hper & _).
  assert (period s = None) as Hnone by (apply Hper; exact Hst).
  assert ((p <=? 0) = true) as Hleb by (apply Z.leb_le; exact Hp).
  split.
  - exists s. rewrite Start_cases, Hst, Hleb.
    repeat split; try assumption. congruence.
  - intros Hparam.
    unfold PaymentTaskStartCmd_ExecuteCommand, try_except_else, GetAsInt.
    rewrite Hparam. unfold ret, try_except, bind.
    rewrite Start_cases, Hst, Hleb. cbn.
    eexists. split; [reflexivity|]. cbn. repeat split; try assumption.
    congruence.
Qed.

(** What an operation does to the status, the period and the timer:
    nothing, or it is a [Start] with a positive period accepted by a stopped
    scheduler, or a [Stop] accepted by a running one. *)
Lemma operation_effect (ev : event) s s' :
  is_operation ev = true ->
  run_event ev s = Some s' ->
  (status s' = status s /\ timer s' = timer s /\ period s' = period s)
  \/ (asks_to_start ev = true
      /\ exists p, 0 < p /\ status s = Stopped /\ status s' = Running
                   /\ period s' = Some p /\ timer s' = Some p)
  \/ (status s = Running /\ status s' = Stopped
      /\ period s' = None /\ timer s' = None).
Proof.
  intros Hop Hrun.
  destruct ev as [p| |chat|chat| |cmd self|]; try discriminate;
    unfold run_event, after in Hrun.
  - rewrite Start_cases in Hrun. destruct (status s) eqn:Hst.
    + destruct (p <=? 0) eqn:Hp; injection Hrun as <-.
      * left. auto.
      * right. left. split; [reflexivity|]. exists p.
        apply Z.leb_gt in Hp. cbn. repeat split; try reflexivity; lia.
    + injection Hrun as <-. left. auto.
  - unfold Stop in Hrun. destruct (status s) eqn:Hst; injection Hrun as <-.
    + left. auto.
    + right. right. cbn. auto.
  - left. destruct (decide (chat_id chat ∈ registry s)) as [Hin|Hin].
    + rewrite (AddChat_present _ _ Hin) in Hrun. injection Hrun as <-. auto.
    + destruct (AddChat_absent _ _ Hin) as (h & Hadd & _).
      rewrite Hadd in Hrun. injection Hrun as <-. auto.
  - left. destruct (decide (chat_id chat ∈ registry s)) as [Hin|Hin].
    + destruct (RemoveChat_present _ _ Hin) as (h & Hrem & _).
      rewrite Hrem in Hrun. injection Hrun as <-. auto.
    + rewrite (RemoveChat_absent _ _ Hin) in Hrun. injection Hrun as <-. auto.
  - left. destruct (RemoveAllChats_clears s) as (h & Hclr & _).
    rewrite Hclr in Hrun. injection Hrun as <-. auto.
Qed.

(** The same of every event: a command does what its operation does, and a
    tick changes nothing. *)
Lemma event_effect (ev : event) s s' :
  run_event ev s = Some s' ->
  (status s' = status s /\ timer s' = timer s /\ period s' = period s)
  \/ (asks_to_start ev = true
      /\ exists p, 0 < p /\ status s = Stopped /\ status s' = Running
                   /\ period s' = Some p /\ timer s' = Some p)
  \/ (status s = Running /\ status s' = Stopped
      /\ period s' = None /\ timer s' = None).
Proof.
  intros Hrun.
  destruct (is_operation ev) eqn:Hop.
  { exact (operation_effect ev s s' Hop Hrun). }
  destruct ev as [| | | | |cmd self|]; try discriminate Hop.
  - destruct (command_effect cmd self s) as (s2 & s1 & Hcmd & Hsame & Hs1).
    unfold run_event, after in Hrun. rewrite Hcmd in Hrun. injection Hrun as <-.
    destruct Hsame as (_ & Hst2 & Hp2 & Ht2 & _). rewrite Hst2, Hp2, Ht2.
    destruct Hs1 as [->|(ev & Hev & Hstart & Hrun1)]; [left; auto|].
    destruct (operation_effect ev s s1 Hev Hrun1)
      as [Hsame|[(Hq & Hacc)|Hstop]].
    + left. exact Hsame.
    + right. left. split; [|exact Hacc].
      rewrite (Hstart Hq). reflexivity.
    + right. right. exact Hstop.
  - unfold run_event in Hrun. destruct (timer s) eqn:Ht; [|discriminate].
    injection Hrun as <-. left. auto.
Qed.

(** A stopped scheduler has no timer: every event keeps this. *)
Lemma run_event_stopped_no_timer (ev : event) s s' :
  (status s = Stopped -> timer s = None) ->
  run_event ev s = Some s' ->
  status s' = Stopped -> timer s' = None.
Proof.
  intros Hinv Hrun Hst'.
  destruct (event_effect ev s s' Hrun)
    as [(Hst & Ht & _)|[(_ & p & _ & _ & Hrunning & _)|(_ & _ & _ & Ht)]].
  - rewrite Ht. apply Hinv. rewrite <- Hst. exact Hst'.
  - congruence.
  - exact Ht.
Qed.

Lemma run_events_stopped_no_timer (evs : list event) s s' :
  (status s = Stopped -> timer s = None) ->
  run_events evs s = Some s' ->
  status s' = Stopped -> timer s' = None.
Proof.
  revert s. induction evs as [|ev evs IH]; intros s Hinv Hrun; simpl in Hrun.
  - injection Hrun as <-. exact Hinv.
  - destruct (run_event ev s) as [s1|] eqn:Hev; [|discriminate].
    apply (IH s1); [|exact Hrun].
    exact (run_event_stopped_no_timer ev s s1 Hinv Hev).
Qed.

Lemma run_events_app (evs1 evs2 : list event) s :
  run_events (evs1 ++ evs2) s
  = match run_events evs1 s with
    | Some s1 => run_events evs2 s1
    | None => None
    end.
Proof.
  revert s. induction evs1 as [|ev evs1 IH]; intros s; [reflexivity|].
  simpl. destruct (run_event ev s) as [s1|]; [apply IH|reflexivity].
Qed.

(** A run passes through a state after each of its events. *)
Lemma run_events_prefix (evs : list event) s s' (i : nat) :
  run_events evs s = Some s' ->
  exists s_i,
    run_events (take i evs) s = Some s_i
    /\ run_events (drop i evs) s_i = Some s'.
Proof.
  intros Hrun. rewrite <- (take_drop i evs), run_events_app in Hrun.
  destruct (run_events (take i evs) s) as [s_i|]; [|discriminate].
  exists s_i. split; [reflexivity|exact Hrun].
Qed.

(** A scheduler found running in a run that began with it stopped was
    started in that run: some event before asked it to start and was
    accepted, with a positive period, and the scheduler has been running
    ever since. *)
Lemma running_since_start (evs : list event) s0 :
  status s0 = Stopped ->
  forall (k : nat) s_k,
    (k <= length evs)%nat ->
    run_events (take k evs) s0 = Some s_k ->
    status s_k = Running ->
    exists (j : nat) ev s_j s_j',
      (j < k)%nat
      /\ evs !! j = Some ev
      /\ asks_to_start ev = true
      /\ run_events (take j evs) s0 = Some s_j
      /\ run_event ev s_j = Some s_j'
      /\ status s_j = Stopped
      /\ status s_j' = Running
      /\ (exists p, 0 < p /\ period s_j' = Some p /\ timer s_j' = Some p)
      /\ forall (m : nat) s_m,
           (j < m <= k)%nat ->
           run_events (take m evs) s0 = Some s_m ->
           status s_m = Running.
Proof.
  intros Hst0. induction k as [|k IH]; intros s_k1 Hk Hrun Hrunning.
  - rewrite take_0 in Hrun. simpl in Hrun. injection Hrun as <-. congruence.
  - destruct (lookup_lt_is_Some_2 evs k ltac:(lia)) as [ev Hev].
    rewrite (take_S_r evs k ev Hev), run_events_app in Hrun.
    destruct (run_events (take k evs) s0) as [s_k|] eqn:Hpre; [|discriminate].
    simpl in Hrun.
    destruct (run_event ev s_k) as [s1|] eqn:Hstep; [|discriminate].
    injection Hrun as ->.
    assert (run_events (take (S k) evs) s0 = Some s_k1) as Hfull.
    { rewrite (take_S_r evs k ev Hev), run_events_app, Hpre. simpl.
      rewrite Hstep. reflexivity. }
    destruct (status s_k) eqn:Hst.
    + destruct (event_effect ev s_k s_k1 Hstep)
        as [(Hsame & _)|[(Hq & Hacc)|(Hrun' & _)]]; [congruence| |congruence].
      destruct Hacc as (p & Hp & _ & _ & Hper & Htim).
      exists k, ev, s_k, s_k1.
      split; [lia|]. split; [exact Hev|]. split; [exact Hq|].
      split; [exact Hpre|]. split; [exact Hstep|]. split; [exact Hst|].
      split; [exact Hrunning|]. split; [exists p; auto|].
      intros m s_m Hm Hrun_m. assert (m = S k) as -> by lia.
      rewrite Hfull in Hrun_m. injection Hrun_m as <-. exact Hrunning.
    + destruct (IH s_k ltac:(lia) eq_refl Hst)
        as (j & ev' & s_j & s_j' & Hj & Hev' & Hq & Hrun_j & Hstep_j & Hst_j
            & Hst_j' & Hper & Hsince).
      exists j, ev', s_j, s_j'.
      split; [lia|]. do 7 (split; [assumption|]).
      intros m s_m Hm Hrun_m.
      destruct (decide (m = S k)) as [->|Hne].
      * rewrite Hfull in Hrun_m. injection Hrun_m as <-. exact Hrunning.
      * apply (Hsince m s_m); [lia|exact Hrun_m].
Qed.

(** C7. [Stop] on a stopped scheduler raises
    [PaymentsCheckJobNotRunningError] and changes nothing. [Stop] on a
    running scheduler returns and leaves it [Stopped], with no period and
    no timer, the registry untouched. From the state it leaves, in every
    run of events: no tick can begin in a state in which the scheduler is
    [Stopped]; and a tick that does begin finds the scheduler [Running],
    after an event that asked it to start and was accepted (the scheduler
    was [Stopped] before it and is [Running] with a positive period after
    it) and with the scheduler [Running] at every moment from that event to
    the tick. So no tick begins after [Stop] unless a later start is
    accepted, and a start that is refused does not count. *)
Theorem Stop_stops_ticks s :
  (status s = Stopped ->
     Stop s = Some (Raise PaymentsCheckJobNotRunningError, s))
  /\ (status s = Running ->
      exists s',
        Stop s = Some (Return tt, s')
        /\ status s' = Stopped /\ period s' = None /\ timer s' = None
        /\ chat_lists s' = chat_lists s /\ job_chats s' = job_chats s
        /\ (forall (evs : list event) s1,
              run_events evs s' = Some s1 ->
              status s1 = Stopped ->
              run_event EvTick s1 = None)
        /\ forall (evs : list event) s'',
             run_events evs s' = Some s'' ->
             forall i, evs !! i = Some EvTick ->
             exists s_i (j : nat) ev s_j s_j',
               run_events (take i evs) s' = Some s_i
               /\ status s_i = Running
               /\ (j < i)%nat
               /\ evs !! j = Some ev
               /\ asks_to_start ev = true
               /\ run_events (take j evs) s' = Some s_j
               /\ run_event ev s_j = Some s_j'
               /\ status s_j = Stopped
               /\ status s_j' = Running
               /\ (exists p, 0 < p /\ period s_j' = Some p
                             /\ timer s_j' = Some p)
               /\ forall (m : nat) s_m,
                    (j < m <= i)%nat ->
                    run_events (take m evs) s' = Some s_m ->
                    status s_m = Running).
Proof.
  split; intros Hst; unfold Stop; rewrite Hst; [reflexivity|].
  eexists. split; [reflexivity|]. cbn [status period timer chat_lists job_chats].
  do 5 (split; [reflexivity|]).
  match goal with
  | |- (forall evs s1, run_events evs ?x = _ -> _) /\ _ => set (s' := x)
  end.
  assert (status s' = Stopped -> timer s' = None) as Hinv by reflexivity.
  split.
  - intros evs s1 Hrun Hst1. unfold run_event.
    rewrite (run_events_stopped_no_timer evs s' s1 Hinv Hrun Hst1). reflexivity.
  - intros evs s'' Hrun i Hi.
    destruct (run_events_prefix evs s' s'' i Hrun) as (s_i & Hpre & Hpost).
    assert (status s_i = Running) as Hrunning.
    { rewrite (drop_S evs EvTick i Hi) in Hpost. simpl in Hpost.
      destruct (status s_i) eqn:Hsti; [|reflexivity].
      rewrite (run_events_stopped_no_timer _ s' s_i Hinv Hpre Hsti) in Hpost.
      discriminate. }
    destruct (running_since_start evs s' eq_refl i s_i) as
      (j & ev & s_j & s_j' & Hj & Hev & Hq & Hrun_j & Hstep & Hst_j & Hst_j'
       & Hper & Hsince); try assumption.
    { apply Nat.lt_le_incl, (lookup_lt_Some evs i EvTick Hi). }
    exists s_i, j, ev, s_j, s_j'.
    do 10 (split; [assumption|]). exact Hsince.
Qed.

Lemma AddChatCmd_present (self : CommandData) s :
  cmd_private self = false ->
  chat_id (cmd_chat self) ∈ registry s ->
  exists s',
    PaymentTaskAddChatCmd_ExecuteCommand self s = Some (Return tt, s')
    /\ sent s' = sent s ++ [SendMessage [PAYMENT_TASK_ADD_CHAT_ERR_CMD]]
    /\ same_but_sent s s'.
Proof.
  intros Hgroup Hin.
  unfold PaymentTaskAddChatCmd_ExecuteCommand, GroupChatOnly. rewrite Hgroup.
  unfold try_except, bind. rewrite (AddChat_present _ _ Hin). cbn.
  eexists. split; [reflexivity|]. repeat split.
Qed.

(** C8. In every state the scheduler can reach from a new one, by its
    operations, by the commands and by ticks, the registry holds no chat
    identifier twice. [AddChat] of a chat already registered raises
    [PaymentsCheckJobChatAlreadyPresentError] and changes nothing, and the
    add command answers with its error message; so after [AddChat] of a
    chat, whatever its outcome, a second [AddChat] of it raises and the
    registry returned by [GetChats] holds the chat exactly once. *)
Theorem registry_never_holds_duplicates (evs : list event) s chat :
  run_events evs new_scheduler = Some s ->
  NoDup (registry s)
  /\ (chat_id chat ∈ registry s ->
      AddChat chat s
      = Some (Raise PaymentsCheckJobChatAlreadyPresentError, s)
      /\ forall self, cmd_private self = false -> cmd_chat self = chat ->
           exists s',
             PaymentTaskAddChatCmd_ExecuteCommand self s = Some (Return tt, s')
             /\ sent s' = sent s ++ [SendMessage [PAYMENT_TASK_ADD_CHAT_ERR_CMD]]
             /\ registry s' = registry s)
  /\ (forall o s1,
        AddChat chat s = Some (o, s1) ->
        AddChat chat s1
        = Some (Raise PaymentsCheckJobChatAlreadyPresentError, s1)
        /\ GetChats s1 = Some (Return (job_chats s1), s1)
        /\ count_occ Z.eq_dec (registry s1) (chat_id chat) = 1%nat).
Proof.
  intros Hreach.
  pose proof (reachable_consistent evs s Hreach) as Hs.
  pose proof Hs as (_ & _ & Hnd).
  split; [exact Hnd|]. split.
  - intros Hin. split; [exact (AddChat_present _ _ Hin)|].
    intros self Hgroup <-.
    destruct (AddChatCmd_present self s Hgroup Hin) as (s' & Hcmd & Hsent & Hsame).
    exists s'. split; [exact Hcmd|]. split; [exact Hsent|].
    destruct Hsame as (Hh & _ & _ & _ & Hj). unfold registry. rewrite Hh, Hj.
    reflexivity.
  - intros o s1 Hadd.
    assert (consistent s1) as Hs1.
    { apply (run_event_consistent (EvAddChat chat) s s1 Hs).
      unfold run_event, after. rewrite Hadd. reflexivity. }
    assert (chat_id chat ∈ registry s1) as Hin1.
    { destruct (decide (chat_id chat ∈ registry s)) as [Hin|Hin].
      - rewrite (AddChat_present _ _ Hin) in Hadd. injection Hadd as _ <-.
        exact Hin.
      - destruct (AddChat_absent _ _ Hin) as (h & Hadd' & Hreg).
        rewrite Hadd' in Hadd. injection Hadd as _ <-. rewrite Hreg.
        apply elem_of_app. right. apply list_elem_of_singleton. reflexivity. }
    split; [exact (AddChat_present _ _ Hin1)|]. split; [reflexivity|].
    destruct Hs1 as (_ & _ & Hnd1).
    apply NoDup_ListNoDup in Hnd1.
    apply (proj1 (NoDup_count_occ' Z.eq_dec (registry s1)) Hnd1).
    apply list_elem_of_In. exact Hin1.
Qed.

End SchedulerFacts.

(** ** The checker of payments_periodic_checker.py *)

(** [Init] raises nothing, whatever the configured period: a period that is
    zero or negative adds no job, any other period adds the one job. *)
Lemma PeriodicChecker_Init_period (cfg : Config) :
  PeriodicChecker.Init (PeriodicChecker.PaymentsPeriodicChecker_init cfg)
  = Some (Return tt,
          {| PeriodicChecker.checker_config := cfg;
             PeriodicChecker.scheduler :=
               Some {| PeriodicChecker.jobs :=
                         if PAYMENT_CHECK_PERIOD_SEC cfg >? 0
                         then [PAYMENT_CHECK_PERIOD_SEC cfg] else [];
                       PeriodicChecker.started := false |} |}).
Proof.
  unfold PeriodicChecker.Init. cbn.
  destruct (PAYMENT_CHECK_PERIOD_SEC cfg >? 0); reflexivity.
Qed.

(** ** The theorems at concrete inputs *)

(** C1 at three matching members and a cap of two. *)
Lemma EvictAllMatching_terminates_with_all_witness :
  let w := fresh_world false [] [member_a; member_b; member_c] in
  exists (passes : nat) (kicked_members : WrappedList) w',
    (forall fuel, (passes <= fuel)%nat ->
       EvictAllMatching (capped_kick 2) fuel group_command w
       = Some (Return (kicked_members, passes), w'))
    /\ (forall fuel, (fuel < passes)%nat ->
          EvictAllMatching (capped_kick 2) fuel group_command w = None)
    /\ length (items kicked_members (objects w')) = 3%nat
    /\ length (platform w') = 0%nat
    /\ (1 <= passes <= 3 + 1)%nat
    /\ (3 <= (passes - 1) * 2)%nat.
Proof.
  intros w.
  apply (EvictAllMatching_terminates_with_all (capped_kick 2) 2 length
           group_command w).
  - reflexivity.
  - intros p. exists (take 2 p), (drop 2 p).
    split; [reflexivity|]. split; [rewrite length_take; lia|].
    split; [rewrite length_take, length_drop; lia|].
    destruct p; simpl; [lia|discriminate].
Defined.

(** C2 at three candidates reported two at a time, in test mode. *)
Lemma EvictAllMatching_test_mode_one_pass_witness :
  let w := fresh_world true [] [member_a; member_b; member_c] in
  exists (kicked_members : WrappedList) w',
    (forall fuel, (1 <= fuel)%nat ->
       EvictAllMatching (capped_kick 2) fuel group_command w
       = Some (Return (kicked_members, 1%nat), w'))
    /\ items kicked_members (objects w') = [member_a; member_b]
    /\ platform w' = platform w
    /\ config w' = config w
    /\ outbox w' = outbox w.
Proof.
  intros w.
  apply (EvictAllMatching_test_mode_one_pass (capped_kick 2) group_command w
           [member_a; member_b]).
  - reflexivity.
  - discriminate.
  - reflexivity.
Defined.

(** C5 at a first pass that returns two members and a second that fails. *)
Lemma EvictAllMatching_failure_propagates_witness :
  let w := fresh_world false []
             [Return [member_a; member_b]; Raise PlatformError] in
  (exists w',
      EvictAllMatching scripted_kick 2 group_command w
      = Some (Raise PlatformError, w')
      /\ platform w' = []
      /\ outbox w' = outbox w)
  /\ (cmd_private group_command = false ->
      exists w',
        RemoveNoPaymentCmd_ExecuteCommand scripted_kick 2 group_command w
        = Some (Raise PlatformError, w')
        /\ platform w' = []
        /\ outbox w'
           = outbox w
             ++ [SendMessage
                   [REMOVE_NO_PAYMENT_NOTICE_CMD (GetTitle (cmd_chat group_command))]]).
Proof.
  intros w.
  apply (EvictAllMatching_failure_propagates scripted_kick
           [[member_a; member_b]] PlatformError group_command w
           [Raise PlatformError] []).
  - left. reflexivity.
  - simpl. split; [discriminate|]. eexists. split; reflexivity.
  - reflexivity.
  - simpl. lia.
Defined.

(** C3, as the code has it, at the chats 1, 2, 3 with a kicker failing for
    chat 2. *)
Lemma PaymentsCheckTask_stops_at_failing_chat_witness :
  let w := fresh_world false [1; 2; 3] ([] : list Z) in
  exists w1,
    (logger_info LogCheckStarted;;;
     for_each [1] (check_chat (failing_kick 2 member_a)))%comp w
    = Some (Return tt, w1)
    /\ __PaymentsCheckTask (failing_kick 2 member_a) w
       = Some (Raise PlatformError,
               {| config := config w1; objects := objects w1;
                  platform := [1; 2]; outbox := outbox w1;
                  log := log w1 ++ [LogCheckingChat 2] |}).
Proof.
  intros w. eexists. split; [vm_compute; reflexivity|].
  apply (PaymentsCheckTask_stops_at_failing_chat (failing_kick 2 member_a)
           w [1] [3] 2 PlatformError).
  - reflexivity.
  - vm_compute. reflexivity.
  - reflexivity.
Defined.

(** C6 at a new scheduler and the period 0. *)
Lemma Start_rejects_nonpositive_period_witness :
  let self := {| cmd_chat := group_chat; cmd_private := false;
                 cmd_params := [Some 0] |} in
  let s := PaymentsCheckScheduler.new_scheduler in
  (exists s',
      PaymentsCheckScheduler.Start 0 s
      = Some (Raise PaymentsCheckJobInvalidPeriodError, s')
      /\ s' = s
      /\ PaymentsCheckScheduler.status s' = PaymentsCheckScheduler.Stopped
      /\ PaymentsCheckScheduler.period s' = None
      /\ PaymentsCheckScheduler.timer s' = None)
  /\ (cmd_params self !! 0%nat = Some (Some 0) ->
      exists s',
        PaymentsCheckScheduler.PaymentTaskStartCmd_ExecuteCommand self s
        = Some (Return tt, s')
        /\ PaymentsCheckScheduler.sent s'
           = PaymentsCheckScheduler.sent s ++ [SendMessage [TASK_PERIOD_ERR_MSG]]
        /\ PaymentsCheckScheduler.same_but_sent s s'
        /\ PaymentsCheckScheduler.status s' = PaymentsCheckScheduler.Stopped
        /\ PaymentsCheckScheduler.timer s' = None).
Proof.
  intros self s.
  apply (Start_rejects_nonpositive_period [] s 0 self).
  - reflexivity.
  - reflexivity.
  - lia.
Defined.

(** C7 at a new scheduler, stopped, and at the same scheduler started with
    the period 5: once it is stopped no tick can begin, nor after a start
    that is refused. *)
Lemma Stop_stops_ticks_witness :
  let stopped := PaymentsCheckScheduler.new_scheduler in
  let running :=
    {| PaymentsCheckScheduler.chat_lists := PaymentsCheckScheduler.chat_lists stopped;
       PaymentsCheckScheduler.status := PaymentsCheckScheduler.Running;
       PaymentsCheckScheduler.period := Some 5;
       PaymentsCheckScheduler.timer := Some 5;
       PaymentsCheckScheduler.job_chats := PaymentsCheckScheduler.job_chats stopped;
       PaymentsCheckScheduler.sent := [] |} in
  PaymentsCheckScheduler.Stop stopped
  = Some (Raise PaymentsCheckJobNotRunningError, stopped)
  /\ exists s',
       PaymentsCheckScheduler.Stop running = Some (Return tt, s')
       /\ PaymentsCheckScheduler.status s' = PaymentsCheckScheduler.Stopped
       /\ PaymentsCheckScheduler.run_events [PaymentsCheckScheduler.EvTick] s'
          = None
       /\ PaymentsCheckScheduler.run_events
            [PaymentsCheckScheduler.EvStart 0; PaymentsCheckScheduler.EvTick] s'
          = None.
Proof.
  intros stopped running. split.
  - apply (proj1 (Stop_stops_ticks stopped)). reflexivity.
  - destruct (proj2 (Stop_stops_ticks running) eq_refl)
      as (s' & Hstop & Hst & _ & _ & _ & _ & Hquiet & _).
    exists s'. split; [exact Hstop|]. split; [exact Hst|]. split.
    + cbn [PaymentsCheckScheduler.run_events].
      rewrite (Hquiet [] s' eq_refl Hst). reflexivity.
    + assert (PaymentsCheckScheduler.run_events
                [PaymentsCheckScheduler.EvStart 0] s' = Some s') as Hrefused.
      { simpl. unfold PaymentsCheckScheduler.after, PaymentsCheckScheduler.Start.
        rewrite Hst. reflexivity. }
      change (PaymentsCheckScheduler.run_events
                ([PaymentsCheckScheduler.EvStart 0]
                 ++ [PaymentsCheckScheduler.EvTick]) s' = None).
      rewrite run_events_app, Hrefused.
      cbn [PaymentsCheckScheduler.run_events].
      rewrite (Hquiet [PaymentsCheckScheduler.EvStart 0] s' Hrefused Hst).
      reflexivity.
Defined.

(** C8 at a scheduler in which [group_chat] was added once. *)
Lemma registry_never_holds_duplicates_witness :
  exists s,
    PaymentsCheckScheduler.run_events
      [PaymentsCheckScheduler.EvAddChat group_chat]
      PaymentsCheckScheduler.new_scheduler = Some s
    /\ PaymentsCheckScheduler.registry s = [100]
    /\ PaymentsCheckScheduler.AddChat group_chat s
       = Some (Raise PaymentsCheckJobChatAlreadyPresentError, s)
    /\ NoDup (PaymentsCheckScheduler.registry s).
Proof.
  eexists. split; [vm_compute; reflexivity|]. split; [vm_compute; reflexivity|].
  match goal with
  | |- PaymentsCheckScheduler.AddChat _ ?s = _ /\ _ =>
      destruct (registry_never_holds_duplicates
                  [PaymentsCheckScheduler.EvAddChat group_chat] s group_chat)
        as (Hnd & Hpresent & _); [vm_compute; reflexivity|]
  end.
  split; [|exact Hnd].
  apply Hpresent. vm_compute. apply list_elem_of_here.
Defined.

(** * Further properties of the code *)

Section WrappedListFacts.
Context {A : Type} `{EqDecision A}.
Implicit Types (h : heap A) (self : WrappedList) (x : A).

(** The indices that denote a position, and the position. *)
Lemma py_index_Some (n : nat) (key : Z) (i : nat) :
  py_index n key = Some i <->
  (0 <= key < Z.of_nat n /\ i = Z.to_nat key)
  \/ (- Z.of_nat n <= key < 0 /\ i = Z.to_nat (key + Z.of_nat n)).
Proof.
  unfold py_index.
  destruct (Z.leb_spec 0 key), (Z.ltb_spec key (Z.of_nat n)),
    (Z.leb_spec (- Z.of_nat n) key), (Z.ltb_spec key 0); simpl;
    split; intros Hi; try discriminate; try lia;
    try (injection Hi as <-; lia);
    try (destruct Hi as [[? ->]|[? ->]]; first [reflexivity|lia]).
Qed.

Lemma py_index_lt (n : nat) (key : Z) (i : nat) :
  py_index n key = Some i -> (i < n)%nat.
Proof. intros Hi. apply py_index_Some in Hi. lia. Qed.

Lemma py_index_None (n : nat) (key : Z) :
  py_index n key = None <-> key < - Z.of_nat n \/ Z.of_nat n <= key.
Proof.
  unfold py_index.
  destruct (Z.leb_spec 0 key), (Z.ltb_spec key (Z.of_nat n)),
    (Z.leb_spec (- Z.of_nat n) key), (Z.ltb_spec key 0); simpl;
    split; intros Hi; try discriminate; try lia; reflexivity.
Qed.

(** The items of a list after its list object was replaced. *)
Lemma items_insert self (l : list A) h :
  items self (<[list_elements self := l]> h) = l.
Proof. unfold items. apply lookup_total_insert_eq. Qed.

Lemma items_insert_other self other (l : list A) h :
  list_elements other <> list_elements self ->
  items other (<[list_elements self := l]> h) = items other h.
Proof. intros Hne. unfold items. apply lookup_total_insert_ne. congruence. Qed.

(** X1. [AddSingle] puts the element at the end of the list: the items
    before it are as they were, it is the last item (index -1), [IsElem]
    finds it and [Count] is one more. *)
Theorem AddSingle_appends self x h :
  exists h',
    AddSingle self x h = Some (Return tt, h')
    /\ items self h' = items self h ++ [x]
    /\ IsElem self x h' = Some (Return true, h')
    /\ Count self h' = Some (Return (Z.of_nat (length (items self h)) + 1), h')
    /\ __getitem__ self (-1) h' = Item x.
Proof.
  eexists. split; [reflexivity|].
  assert (items self (py_append (list_elements self) x h) = items self h ++ [x])
    as Hitems by apply items_insert.
  split; [exact Hitems|]. split; [|split].
  - unfold IsElem, py_contains. fold (items self (py_append (list_elements self) x h)).
    rewrite Hitems, bool_decide_eq_true_2; [reflexivity|].
    apply elem_of_app. right. apply list_elem_of_singleton. reflexivity.
  - rewrite Count_items, Hitems, length_app. simpl length. do 3 f_equal. lia.
  - unfold __getitem__. rewrite Hitems, length_app. simpl length.
    replace (py_index (length (items self h) + 1) (-1))
      with (Some (length (items self h))).
    + rewrite lookup_app_r by lia. rewrite Nat.sub_diag. reflexivity.
    + symmetry. apply py_index_Some. right. lia.
Qed.

(** [remove_first] splits the list at the first occurrence. *)
Lemma remove_first_split x (l : list A) :
  x ∈ l ->
  exists pre post,
    l = pre ++ x :: post /\ (x ∉ pre) /\ remove_first x l = pre ++ post.
Proof.
  induction l as [|y l IH]; intros Hin; [inversion Hin|].
  simpl. destruct (decide (x = y)) as [->|Hne].
  - exists [], l. split; [reflexivity|]. split; [apply not_elem_of_nil|reflexivity].
  - apply elem_of_cons in Hin as [Hin|Hin]; [contradiction|].
    destruct (IH Hin) as (pre & post & -> & Hpre & Hrem).
    exists (y :: pre), post. split; [reflexivity|]. split.
    + intros [Heq|Hin']%elem_of_cons; [contradiction|]. exact (Hpre Hin').
    + simpl. rewrite Hrem. reflexivity.
Qed.

Lemma remove_first_absent x (l : list A) :
  x ∉ l -> remove_first x (l ++ [x]) = l.
Proof.
  induction l as [|y l IH]; intros Hin; simpl.
  - destruct (decide (x = x)); [reflexivity|contradiction].
  - apply not_elem_of_cons in Hin as [Hne Hin].
    destruct (decide (x = y)); [contradiction|]. rewrite IH by exact Hin.
    reflexivity.
Qed.

(** X2. [RemoveSingle] of an element the list does not hold raises
    [ValueError] and leaves the store as it was. *)
Theorem RemoveSingle_absent_raises self x h :
  x ∉ items self h ->
  RemoveSingle self x h = Some (Raise ValueError, h).
Proof.
  intros Hin. unfold RemoveSingle, py_contains. fold (items self h).
  rewrite bool_decide_eq_false_2 by exact Hin. reflexivity.
Qed.

(** X3. [RemoveSingle] of an element the list holds removes its first
    occurrence and nothing else: the items before and after it stay in
    their order, later occurrences of the element included, and [Count] is
    one less. *)
Theorem RemoveSingle_removes_first self x h :
  x ∈ items self h ->
  exists h' pre post,
    RemoveSingle self x h = Some (Return tt, h')
    /\ items self h = pre ++ x :: post
    /\ (x ∉ pre)
    /\ items self h' = pre ++ post
    /\ Count self h' = Some (Return (Z.of_nat (length (items self h)) - 1), h').
Proof.
  intros Hin. destruct (remove_first_split x _ Hin) as (pre & post & Hl & Hpre & Hrem).
  unfold RemoveSingle, py_contains. fold (items self h).
  rewrite bool_decide_eq_true_2 by exact Hin.
  eexists _, pre, post. split; [reflexivity|]. split; [exact Hl|].
  split; [exact Hpre|].
  assert (items self (<[list_elements self := remove_first x (items self h)]> h)
          = pre ++ post) as Hitems by (rewrite items_insert; exact Hrem).
  split; [exact Hitems|].
  rewrite Count_items, Hitems, Hl, !length_app. simpl length.
  do 3 f_equal. lia.
Qed.

(** X4. Adding an element the list does not hold and removing it again
    gives the list back as it was. *)
Theorem AddSingle_RemoveSingle_restores self x h :
  x ∉ items self h ->
  exists h',
    (AddSingle self x;;; RemoveSingle self x)%comp h = Some (Return tt, h')
    /\ items self h' = items self h.
Proof.
  intros Hin. unfold bind. cbn [AddSingle].
  assert (items self (py_append (list_elements self) x h) = items self h ++ [x])
    as Hitems by apply items_insert.
  unfold RemoveSingle, py_contains.
  fold (items self (py_append (list_elements self) x h)). rewrite Hitems.
  rewrite bool_decide_eq_true_2
    by (apply elem_of_app; right; apply list_elem_of_singleton; reflexivity).
  eexists. split; [reflexivity|].
  rewrite items_insert. apply remove_first_absent. exact Hin.
Qed.

(** X5. After [Clear] the list is empty: [Count] is 0, [Empty] is true,
    [Any] is false and [IsElem] finds no element; the other lists of the
    store are as they were. *)
Theorem Clear_empties self h :
  exists h',
    Clear self h = Some (Return tt, h')
    /\ items self h' = []
    /\ Count self h' = Some (Return 0, h')
    /\ Empty self h' = Some (Return true, h')
    /\ Any self h' = Some (Return false, h')
    /\ (forall x, IsElem self x h' = Some (Return false, h'))
    /\ (forall other, list_elements other <> list_elements self ->
          items other h' = items other h).
Proof.
  eexists. split; [reflexivity|].
  assert (items self (py_clear (list_elements self) h) = []) as Hitems
    by apply items_insert.
  split; [exact Hitems|]. split; [|split; [|split; [|split]]].
  - rewrite Count_items, Hitems. reflexivity.
  - unfold Empty, bind. rewrite Count_items, Hitems. reflexivity.
  - rewrite Any_items, Hitems. reflexivity.
  - intros x. unfold IsElem, py_contains.
    fold (items self (py_clear (list_elements self) h)). rewrite Hitems.
    rewrite bool_decide_eq_false_2 by apply not_elem_of_nil. reflexivity.
  - intros other Hne. apply items_insert_other. exact Hne.
Qed.

(** X6. [AddMultiple] copies: the items of the other wrapped list are
    appended in their order, and emptying the other list afterwards leaves
    the copied items in place. *)
Theorem AddMultiple_copies (w e : WrappedList) h :
  list_elements e <> list_elements w ->
  exists h',
    (AddMultiple w (inr e);;; Clear e)%comp h = Some (Return tt, h')
    /\ items w h' = items w h ++ items e h
    /\ items e h' = [].
Proof.
  intros Hne. unfold bind. cbn [AddMultiple GetList ret bind].
  eexists. split; [reflexivity|]. split.
  - unfold Clear, py_clear. rewrite items_insert_other by congruence.
    unfold items. apply py_extend_self.
  - apply items_insert.
Qed.

(** X7. [self[key]] for an index from 0 up to the count is the item at that
    position, and the same item is read at the index less the count (the
    negative way of counting); an index below minus the count, or the count
    or more, raises [IndexError]. *)
Theorem getitem_range self (key : Z) h :
  let n := Z.of_nat (length (items self h)) in
  (0 <= key < n ->
     exists x, __getitem__ self key h = Item x
               /\ items self h !! Z.to_nat key = Some x
               /\ __getitem__ self (key - n) h = Item x)
  /\ (key < - n \/ n <= key -> __getitem__ self key h = IndexError).
Proof.
  intros n. subst n. split.
  - intros Hkey.
    destruct (lookup_lt_is_Some_2 (items self h) (Z.to_nat key)) as [x Hx]; [lia|].
    exists x. unfold __getitem__.
    replace (py_index (length (items self h)) key) with (Some (Z.to_nat key))
      by (symmetry; apply py_index_Some; left; lia).
    replace (py_index (length (items self h)) (key - Z.of_nat (length (items self h))))
      with (Some (Z.to_nat key))
      by (symmetry; apply py_index_Some; right; split; [lia|f_equal; lia]).
    rewrite Hx. auto.
  - intros Hkey. unfold __getitem__.
    replace (py_index (length (items self h)) key) with (@None nat)
      by (symmetry; apply py_index_None; exact Hkey).
    reflexivity.
Qed.

(** X8. [self[key] = v] for an index from minus the count up to the count
    is read back by [self[key]], keeps the count, and leaves the item at
    every other position as it was; outside this range it raises
    [IndexError]. *)
Theorem setitem_getitem self (key : Z) (v : A) h :
  let n := Z.of_nat (length (items self h)) in
  (- n <= key < n ->
     exists h',
       __setitem__ self key v h = Item h'
       /\ __getitem__ self key h' = Item v
       /\ length (items self h') = length (items self h)
       /\ (forall key',
             py_index (length (items self h)) key'
             <> py_index (length (items self h)) key ->
             __getitem__ self key' h' = __getitem__ self key' h))
  /\ (key < - n \/ n <= key -> __setitem__ self key v h = IndexError).
Proof.
  intros n. subst n. split.
  - intros Hkey.
    destruct (py_index (length (items self h)) key) as [i|] eqn:Hi.
    2: { apply py_index_None in Hi. lia. }
    pose proof (py_index_lt _ _ _ Hi) as Hlt.
    unfold __setitem__. rewrite Hi. eexists. split; [reflexivity|].
    unfold __getitem__. rewrite !items_insert, !length_insert, Hi.
    split; [rewrite list_lookup_insert_eq by exact Hlt; reflexivity|].
    split; [reflexivity|].
    intros key' Hne. rewrite ?items_insert, ?length_insert.
    destruct (py_index (length (items self h)) key') as [j|]; [|reflexivity].
    rewrite list_lookup_insert_ne by congruence. reflexivity.
  - intros Hkey. unfold __setitem__.
    replace (py_index (length (items self h)) key) with (@None nat)
      by (symmetry; apply py_index_None; exact Hkey).
    reflexivity.
Qed.

(** X9. [del self[key]] for an index from minus the count up to the count
    removes the item at the position the index denotes ([key] itself, or
    [key] plus the count when it is negative), which is the item
    [self[key]] read; the items before and after that position keep their
    order, and [Count] is one less. Outside this range it raises
    [IndexError]. *)
Theorem delitem_range self (key : Z) h :
  let n := Z.of_nat (length (items self h)) in
  (- n <= key < n ->
     exists h' pre x post,
       __delitem__ self key h = Item h'
       /\ items self h = pre ++ x :: post
       /\ Z.of_nat (length pre) = (if key <? 0 then key + n else key)
       /\ __getitem__ self key h = Item x
       /\ items self h' = pre ++ post
       /\ Count self h' = Some (Return (n - 1), h'))
  /\ (key < - n \/ n <= key -> __delitem__ self key h = IndexError).
Proof.
  intros n. subst n. split.
  - intros Hkey.
    destruct (py_index (length (items self h)) key) as [i|] eqn:Hi.
    2: { apply py_index_None in Hi. lia. }
    pose proof (py_index_lt _ _ _ Hi) as Hlt.
    destruct (lookup_lt_is_Some_2 (items self h) i Hlt) as [x Hx].
    unfold __delitem__, __getitem__. rewrite Hi, Hx.
    exists (<[list_elements self := delete i (items self h)]> h),
      (take i (items self h)), x, (drop (S i) (items self h)).
    split; [reflexivity|].
    split; [symmetry; apply take_drop_middle; exact Hx|].
    split.
    { rewrite length_take, Nat.min_l by lia.
      apply py_index_Some in Hi as [[Hpos ->]|[Hneg ->]].
      - replace (key <? 0) with false by (symmetry; apply Z.ltb_ge; lia). lia.
      - replace (key <? 0) with true by (symmetry; apply Z.ltb_lt; lia). lia. }
    split; [reflexivity|].
    assert (items self (<[list_elements self := delete i (items self h)]> h)
            = take i (items self h) ++ drop (S i) (items self h)) as Hitems.
    { rewrite items_insert. apply delete_take_drop. }
    split; [exact Hitems|].
    rewrite Count_items, Hitems, length_app, length_take, length_drop.
    do 3 f_equal. lia.
  - intros Hkey. unfold __delitem__.
    replace (py_index (length (items self h)) key) with (@None nat)
      by (symmetry; apply py_index_None; exact Hkey).
    reflexivity.
Qed.

End WrappedListFacts.

Section SortFacts.
Context {A K : Type}.
Variable lt_elem : A -> A -> bool.
Variable lt_key : K -> K -> bool.

(** Insertion, and so the sort, keeps the items. *)
Lemma insert_ordered_perm (lt : A -> A -> bool) (x : A) (l : list A) :
  insert_ordered lt x l ≡ₚ x :: l.
Proof.
  induction l as [|y l IH]; simpl; [reflexivity|].
  destruct (lt x y); [reflexivity|]. rewrite IH. apply Permutation_swap.
Qed.

Lemma stable_sort_perm (lt : A -> A -> bool) (l : list A) :
  stable_sort lt l ≡ₚ l.
Proof.
  unfold stable_sort.
  enough (forall acc, foldl (fun sorted x => insert_ordered lt x sorted) acc l
                      ≡ₚ acc ++ l) as Hgen by apply Hgen.
  induction l as [|x l IH]; intros acc; simpl.
  - rewrite app_nil_r. reflexivity.
  - rewrite IH, insert_ordered_perm. simpl. apply Permutation_middle.
Qed.

(** Insertion into an ordered list gives an ordered list, for an asymmetric
    comparison. *)
Lemma insert_ordered_sorted (lt : A -> A -> bool) (x : A) (l : list A) :
  (forall a b, lt a b = true -> lt b a = false) ->
  Sorted (fun a b => lt b a = false) l ->
  Sorted (fun a b => lt b a = false) (insert_ordered lt x l).
Proof.
  intros Hasym. induction 1 as [|y l Hl IH Hhd]; simpl.
  - repeat constructor.
  - destruct (lt x y) eqn:Hxy.
    + constructor; [constructor; assumption|]. constructor. apply Hasym, Hxy.
    + constructor; [exact IH|].
      destruct Hhd as [|z l Hyz]; simpl.
      * constructor. exact Hxy.
      * destruct (lt x z); constructor; assumption.
Qed.

Lemma stable_sort_sorted (lt : A -> A -> bool) (l : list A) :
  (forall a b, lt a b = true -> lt b a = false) ->
  Sorted (fun a b => lt b a = false) (stable_sort lt l).
Proof.
  intros Hasym. unfold stable_sort.
  enough (forall acc, Sorted (fun a b => lt b a = false) acc ->
            Sorted (fun a b => lt b a = false)
              (foldl (fun sorted x => insert_ordered lt x sorted) acc l))
    as Hgen by (apply Hgen; constructor).
  induction l as [|x l IH]; intros acc Hacc; simpl; [exact Hacc|].
  apply IH, insert_ordered_sorted; assumption.
Qed.

(** An ordered list stays ordered with an item at its end that fits. *)
Lemma Sorted_snoc (R : A -> A -> Prop) (l : list A) (x : A) :
  Sorted R l ->
  (forall y, last l = Some y -> R y x) ->
  Sorted R (l ++ [x]).
Proof.
  induction 1 as [|y l Hl IH Hhd]; intros Hlast; simpl.
  - repeat constructor.
  - constructor.
    + apply IH. intros z Hz. apply Hlast. destruct l; [discriminate|exact Hz].
    + destruct Hhd as [|z l Hyz]; simpl; constructor; [|exact Hyz].
      apply Hlast. reflexivity.
Qed.

Lemma Sorted_rev (R : A -> A -> Prop) (l : list A) :
  Sorted R l -> Sorted (fun a b => R b a) (rev l).
Proof.
  induction 1 as [|y l Hl IH Hhd]; simpl; [constructor|].
  apply Sorted_snoc; [exact IH|].
  intros z Hz. destruct Hhd as [|w l Hyw]; simpl in Hz.
  - discriminate.
  - rewrite last_snoc in Hz. injection Hz as <-. exact Hyw.
Qed.

(** X10. For a comparison that is a strict weak order (asymmetric, and
    not being smaller is transitive), [Sort] keeps the items, each as often
    as before, and leaves them ordered: no item is smaller than an item
    before it, and with [reverse] no item is smaller than an item after
    it. *)
Theorem Sort_orders (self : WrappedList) (key : option (A -> K))
    (reverse : bool) (h : heap A) :
  (forall a b, sort_lt lt_elem lt_key key a b = true ->
               sort_lt lt_elem lt_key key b a = false) ->
  (forall a b c, sort_lt lt_elem lt_key key a b = false ->
                 sort_lt lt_elem lt_key key b c = false ->
                 sort_lt lt_elem lt_key key a c = false) ->
  exists h',
    Sort lt_elem lt_key self key reverse h = Some (Return tt, h')
    /\ items self h' ≡ₚ items self h
    /\ StronglySorted
         (fun a b =>
            if reverse then sort_lt lt_elem lt_key key a b = false
            else sort_lt lt_elem lt_key key b a = false)
         (items self h').
Proof.
  intros Hasym Htrans. eexists. split; [reflexivity|].
  rewrite items_insert.
  unfold py_sort. destruct reverse.
  - split.
    + rewrite <- Permutation_rev, stable_sort_perm, <- Permutation_rev.
      reflexivity.
    + apply Sorted_StronglySorted.
      * intros a b c Hab Hbc. exact (Htrans a b c Hab Hbc).
      * apply (Sorted_rev (fun a b => sort_lt lt_elem lt_key key b a = false)).
        apply stable_sort_sorted, Hasym.
  - split; [apply stable_sort_perm|].
    apply Sorted_StronglySorted.
    + intros a b c Hab Hbc. exact (Htrans c b a Hbc Hab).
    + apply stable_sort_sorted, Hasym.
Qed.

End SortFacts.

Section SortStable.
Context {A : Type}.
Variable lt_elem : A -> A -> bool.
Variable f : A -> Z.

Let lt (a b : A) : bool := sort_lt lt_elem Z.ltb (Some f) a b.

(** No item of the key [k], nothing passes the filter. *)
Lemma filter_key_none (l : list A) (k : Z) :
  Forall (fun a => f a <> k) l -> filter (fun a => f a = k) l = [].
Proof.
  induction 1 as [|y l Hy Hl IH]; [reflexivity|].
  rewrite filter_cons. destruct (decide (f y = k)); [contradiction|exact IH].
Qed.

(** An item is inserted after the items of its own key: among the items of
    one key it comes last. *)
Lemma insert_ordered_keys (x : A) (l : list A) (k : Z) :
  StronglySorted (fun a b => f a <= f b) l ->
  filter (fun a => f a = k) (insert_ordered lt x l)
  = filter (fun a => f a = k) l ++ (if decide (f x = k) then [x] else []).
Proof.
  induction 1 as [|y l Hl IH Hall]; simpl.
  - rewrite filter_cons, filter_nil. destruct (decide (f x = k)); reflexivity.
  - unfold lt at 1, sort_lt. destruct (Z.ltb_spec (f x) (f y)) as [Hxy|Hxy].
    + rewrite (filter_cons _ x). destruct (decide (f x = k)) as [Hk|Hk].
      * assert (filter (fun a => f a = k) (y :: l) = []) as ->; [|reflexivity].
        apply filter_key_none, Forall_cons. split; [lia|].
        apply (Forall_impl _ _ _ Hall). intros z Hz. lia.
      * rewrite app_nil_r. reflexivity.
    + rewrite !(filter_cons _ y), IH.
      destruct (decide (f y = k)); reflexivity.
Qed.

Lemma insert_ordered_strongly_sorted (x : A) (l : list A) :
  StronglySorted (fun a b => f a <= f b) l ->
  StronglySorted (fun a b => f a <= f b) (insert_ordered lt x l).
Proof.
  induction 1 as [|y l Hl IH Hall]; simpl.
  - repeat constructor.
  - unfold lt at 1, sort_lt. destruct (Z.ltb_spec (f x) (f y)) as [Hxy|Hxy].
    + constructor; [constructor; assumption|].
      constructor; [lia|]. apply (Forall_impl _ _ _ Hall). intros z Hz. lia.
    + constructor; [exact IH|].
      rewrite (insert_ordered_perm lt x l). constructor; [lia|exact Hall].
Qed.

Lemma stable_sort_keys (l : list A) (k : Z) :
  filter (fun a => f a = k) (stable_sort lt l) = filter (fun a => f a = k) l.
Proof.
  unfold stable_sort.
  enough (forall acc,
            StronglySorted (fun a b => f a <= f b) acc ->
            filter (fun a => f a = k)
              (foldl (fun sorted x => insert_ordered lt x sorted) acc l)
            = filter (fun a => f a = k) acc ++ filter (fun a => f a = k) l)
    as Hgen by (apply (Hgen []); constructor).
  induction l as [|x l IH]; intros acc Hacc; simpl.
  - rewrite filter_nil, app_nil_r. reflexivity.
  - rewrite IH by (apply insert_ordered_strongly_sorted; exact Hacc).
    rewrite insert_ordered_keys by exact Hacc.
    rewrite filter_cons, <- app_assoc.
    destruct (decide (f x = k)); reflexivity.
Qed.

Lemma filter_key_rev (l : list A) (k : Z) :
  filter (fun a => f a = k) (rev l) = rev (filter (fun a => f a = k) l).
Proof.
  induction l as [|x l IH]; [reflexivity|].
  simpl rev. rewrite filter_app, IH, !filter_cons, filter_nil.
  destruct (decide (f x = k)); simpl; [reflexivity|apply app_nil_r].
Qed.

(** X11. [Sort] by an integer key is stable, with [reverse] or without:
    the items of any one key are in the order they were in before. *)
Theorem Sort_is_stable (self : WrappedList) (reverse : bool) (h : heap A) (k : Z) :
  exists h',
    Sort lt_elem Z.ltb self (Some f) reverse h = Some (Return tt, h')
    /\ filter (fun a => f a = k) (items self h')
       = filter (fun a => f a = k) (items self h).
Proof.
  eexists. split; [reflexivity|].
  rewrite items_insert.
  unfold py_sort. destruct reverse.
  - change (sort_lt lt_elem Z.ltb (Some f)) with lt.
    rewrite filter_key_rev, stable_sort_keys, filter_key_rev.
    apply rev_involutive.
  - apply stable_sort_keys.
Qed.

End SortStable.

(** ** The translation loader *)

Section TranslationFacts.
Import TranslationLoader.
Context {V : Type}.
Variable str : V -> string.
Variable parse : string -> parsed.
Variable def_file_path : string.

Implicit Types (self : TranslationLoader) (s : string).

(** Appending, unfolded once. *)
Lemma append_String (c : ascii) (a b : string) :
  String c a +:+ b = String c (a +:+ b).
Proof. reflexivity. Qed.

Lemma append_assoc_string (a b c : string) : (a +:+ b) +:+ c = a +:+ (b +:+ c).
Proof.
  induction a as [|x a IH]; [reflexivity|].
  rewrite !append_String. f_equal. exact IH.
Qed.

Lemma prefix_append (old t : string) : String.prefix old (old +:+ t) = true.
Proof.
  induction old as [|c old IH]; [destruct t; reflexivity|].
  rewrite append_String. simpl.
  destruct (ascii_dec c c); [exact IH|contradiction].
Qed.

(** The characters of a match are passed over. *)
Lemma replace_from_skip (u old new t : string) :
  replace_from (String.length u) old new (u +:+ t) = replace_from 0 old new t.
Proof.
  induction u as [|c u IH]; [destruct t; reflexivity|].
  rewrite append_String. simpl. exact IH.
Qed.

(** Nothing is replaced in a string in which the first character of [old]
    does not occur. *)
Lemma replace_from_absent (c : ascii) (o new s : string) :
  occurs c s = false -> replace_from 0 (String c o) new s = s.
Proof.
  induction s as [|d s IH]; simpl; [reflexivity|].
  intros [Hd Hs]%orb_false_elim.
  destruct (ascii_dec c d) as [->|_].
  - rewrite Ascii.eqb_refl in Hd. discriminate.
  - rewrite IH by exact Hs. reflexivity.
Qed.

(** The first match is replaced, and the replacing goes on after it. *)
Lemma replace_from_first (c : ascii) (o new pre post : string) :
  occurs c pre = false ->
  replace_from 0 (String c o) new (pre +:+ String c o +:+ post)
  = pre +:+ new +:+ replace_from 0 (String c o) new post.
Proof.
  induction pre as [|d pre IH]; intros Hpre.
  - change (EmptyString +:+ String c o +:+ post) with (String c (o +:+ post)).
    change (replace_from 0 (String c o) new (String c (o +:+ post)))
      with (if String.prefix (String c o) (String c (o +:+ post))
            then new +:+ replace_from (String.length (String c o) - 1)
                           (String c o) new (o +:+ post)
            else String c (replace_from 0 (String c o) new (o +:+ post))).
    pose proof (prefix_append (String c o) post) as Hp.
    rewrite append_String in Hp. rewrite Hp.
    replace (String.length (String c o) - 1)%nat with (String.length o)
      by (simpl String.length; lia).
    rewrite replace_from_skip. reflexivity.
  - simpl in Hpre. apply orb_false_elim in Hpre as [Hd Hpre].
    rewrite !append_String. simpl.
    destruct (ascii_dec c d) as [->|_].
    + rewrite Ascii.eqb_refl in Hd. discriminate.
    + rewrite <- IH by exact Hpre. reflexivity.
Qed.

Lemma py_replace_placeholder_absent (name new s : string) :
  occurs "{" s = false -> py_replace ("{" +:+ name +:+ "}") new s = s.
Proof.
  intros Hno. unfold py_replace. rewrite append_String.
  apply replace_from_absent. exact Hno.
Qed.

Lemma py_replace_placeholder_first (name new pre post : string) :
  occurs "{" pre = false ->
  py_replace ("{" +:+ name +:+ "}") new (pre +:+ "{" +:+ name +:+ "}" +:+ post)
  = pre +:+ new +:+ py_replace ("{" +:+ name +:+ "}") new post.
Proof.
  intros Hpre.
  replace (pre +:+ "{" +:+ name +:+ "}" +:+ post)
    with (pre +:+ String "{" (name +:+ "}") +:+ post).
  - change ("{" +:+ name +:+ "}") with (String "{" (name +:+ "}")).
    unfold py_replace. apply replace_from_first. exact Hpre.
  - f_equal.
    change (String "{" ((name +:+ "}") +:+ post)
            = String "{" (name +:+ "}" +:+ post)).
    f_equal. apply append_assoc_string.
Qed.

(** X12. A loaded sentence in which no opening brace occurs is returned
    unchanged, whatever placeholders are given. *)
Theorem GetSentence_without_braces self (sentence_id sentence : string)
    (placeholders : list (string * V)) :
  sentences self !! sentence_id = Some sentence ->
  occurs "{" sentence = false ->
  GetSentence str self sentence_id (Some placeholders) = inr sentence.
Proof.
  intros Hid Hno. unfold GetSentence. rewrite Hid. f_equal.
  induction placeholders as [|[name v] placeholders IH]; [reflexivity|].
  cbn [foldl fst snd]. rewrite py_replace_placeholder_absent by exact Hno. exact IH.
Qed.

(** X13. A loaded sentence with one occurrence of the placeholder [name]
    in braces, and no other opening brace, is returned with [str(value)] in
    the place of the braces and the name. *)
Theorem GetSentence_substitutes self (sentence_id name pre post : string) (v : V) :
  sentences self !! sentence_id = Some (pre +:+ "{" +:+ name +:+ "}" +:+ post) ->
  occurs "{" pre = false ->
  occurs "{" post = false ->
  GetSentence str self sentence_id (Some [(name, v)])
  = inr (pre +:+ str v +:+ post).
Proof.
  intros Hid Hpre Hpost. unfold GetSentence. rewrite Hid. f_equal.
  cbn [foldl fst snd].
  rewrite py_replace_placeholder_first by exact Hpre.
  rewrite py_replace_placeholder_absent by exact Hpost. reflexivity.
Qed.

(** The loop over the elements looks at the dictionary only: the log has
    no part in its outcome or in what it stores. *)
Lemma load_children_sentences (children : list Element) self1 self2 :
  sentences self1 = sentences self2 ->
  fst (load_children children self1) = fst (load_children children self2)
  /\ sentences (snd (load_children children self1))
     = sentences (snd (load_children children self2)).
Proof.
  revert self1 self2.
  induction children as [|child children IH]; intros self1 self2 Heq; simpl.
  - split; [reflexivity|exact Heq].
  - destruct (String.eqb (tag child) SENTENCE_XML_TAG); [|apply IH, Heq].
    destruct (attrib child !! "id") as [sentence_id|]; [|split; [reflexivity|exact Heq]].
    destruct (text child) as [t|]; [|split; [reflexivity|exact Heq]].
    apply IH. simpl. rewrite Heq. reflexivity.
Qed.

Lemma LoadFile_sentences (file_name : string) self1 self2 :
  sentences self1 = sentences self2 ->
  fst (__LoadFile parse file_name self1) = fst (__LoadFile parse file_name self2)
  /\ sentences (snd (__LoadFile parse file_name self1))
     = sentences (snd (__LoadFile parse file_name self2)).
Proof.
  intros Heq. unfold __LoadFile.
  destruct (parse file_name) as [children| |]; try (split; [reflexivity|exact Heq]).
  destruct (load_children_sentences children self1 self2 Heq) as [Hfst Hsnd].
  destruct (load_children children self1) as [[e1|[]] s1],
           (load_children children self2) as [[e2|[]] s2];
    simpl in *; try discriminate; split; assumption.
Qed.

(** X14. When the language file asked for does not exist, [Load] ends as
    the load of the default file does: the same outcome (an exception of the
    default file's load included) and the same sentences; the miss is
    logged as an error. *)
Theorem Load_falls_back_to_default (file_name : string) self :
  parse file_name = NotFound ->
  fst (Load parse def_file_path (Some file_name) self)
  = fst (Load parse def_file_path None self)
  /\ sentences (snd (Load parse def_file_path (Some file_name) self))
     = sentences (snd (Load parse def_file_path None self))
  /\ ErrorNotFound file_name
     ∈ logged (snd (Load parse def_file_path (Some file_name) self)).
Proof.
  intros Hnot.
  assert (Load parse def_file_path (Some file_name) self
          = __LoadFile parse def_file_path
              (logger (ErrorNotFound file_name)
                 (logger (InfoLoading file_name) self))) as ->.
  { unfold Load. unfold __LoadFile at 1. rewrite Hnot. reflexivity. }
  unfold Load.
  split; [|split].
  - apply LoadFile_sentences. reflexivity.
  - apply LoadFile_sentences. reflexivity.
  - set (self1 := logger (ErrorNotFound file_name) (logger (InfoLoading file_name) self)).
    assert (ErrorNotFound file_name ∈ logged self1) as Hin.
    { subst self1. simpl. apply elem_of_app. right. apply list_elem_of_here. }
    revert Hin. generalize self1. clear self1. intros self1 Hin.
    unfold __LoadFile. destruct (parse def_file_path) as [children| |]; try exact Hin.
    assert (ErrorNotFound file_name ∈ logged (snd (load_children children self1)))
      as Hin'.
    { revert self1 Hin. induction children as [|child children IH];
        intros self1 Hin; simpl; [exact Hin|].
      destruct (String.eqb (tag child) SENTENCE_XML_TAG); [|apply IH, Hin].
      destruct (attrib child !! "id"); [|exact Hin].
      destruct (text child); [|exact Hin].
      apply IH. simpl. apply elem_of_app. left. exact Hin. }
    destruct (load_children children self1) as [[e|[]] self2]; simpl in *;
      [exact Hin'|]. apply elem_of_app. left. exact Hin'.
Qed.

(** X15. [Load] catches [FileNotFoundError] only: any other exception of
    the load of the file asked for leaves [Load] as it is, and the default
    file is not read. *)
Theorem Load_catches_only_FileNotFoundError (file_name : string) self e self' :
  __LoadFile parse file_name (logger (InfoLoading file_name) self) = (inl e, self') ->
  e <> FileNotFoundError ->
  Load parse def_file_path (Some file_name) self = (inl e, self').
Proof.
  intros Hload Hne. unfold Load. rewrite Hload.
  destruct e; [contradiction|reflexivity..].
Qed.

(** The loop only ever adds to the dictionary or overwrites in it. *)
Lemma load_children_keeps (children : list Element) self (sentence_id : string) :
  is_Some (sentences self !! sentence_id) ->
  is_Some (sentences (snd (load_children children self)) !! sentence_id).
Proof.
  revert self. induction children as [|child children IH]; intros self Hid; simpl;
    [exact Hid|].
  destruct (String.eqb (tag child) SENTENCE_XML_TAG); [|apply IH, Hid].
  destruct (attrib child !! "id") as [id'|]; [|exact Hid].
  destruct (text child) as [t|]; [|exact Hid].
  apply IH. simpl. rewrite lookup_insert_is_Some. 
  destruct (decide (id' = sentence_id)); [left; assumption|right; split; assumption].
Qed.

Lemma LoadFile_keeps (file_name : string) self (sentence_id : string) :
  is_Some (sentences self !! sentence_id) ->
  is_Some (sentences (snd (__LoadFile parse file_name self)) !! sentence_id).
Proof.
  intros Hid. unfold __LoadFile.
  destruct (parse file_name) as [children| |]; try exact Hid.
  pose proof (load_children_keeps children self sentence_id Hid) as Hkeep.
  destruct (load_children children self) as [[e|[]] self1]; exact Hkeep.
Qed.

(** X16. A load never forgets a sentence: an id that had a sentence before
    [Load] has one after it, whether the load succeeds or fails. *)
Theorem Load_keeps_sentences (file_name : option string) self (sentence_id : string) :
  is_Some (sentences self !! sentence_id) ->
  is_Some (sentences (snd (Load parse def_file_path file_name self)) !! sentence_id).
Proof.
  intros Hid. unfold Load. destruct file_name as [file_name|].
  - pose proof (LoadFile_keeps file_name (logger (InfoLoading file_name) self)
                  sentence_id Hid) as Hkeep.
    destruct (__LoadFile parse file_name (logger (InfoLoading file_name) self))
      as [[e|[]] self1]; [|exact Hkeep].
    destruct e; try exact Hkeep.
    apply LoadFile_keeps. exact Hkeep.
  - apply LoadFile_keeps. exact Hid.
Qed.

Lemma loaded_cons (child : Element) (children : list Element)
    (m : gmap string string) :
  loaded (child :: children) m = loaded children (store_child m child).
Proof. reflexivity. Qed.

(** Over elements that all load, the loop ends without exception and the
    dictionary is [loaded]. *)
Lemma load_children_loadable (children : list Element) self :
  Forall loadable children ->
  exists self',
    load_children children self = (inr tt, self')
    /\ sentences self' = loaded children (sentences self).
Proof.
  intros Hall. revert self.
  induction Hall as [|child children Hchild Hall IH]; intros self;
    cbn [load_children].
  - exists self. split; reflexivity.
  - rewrite loaded_cons. unfold store_child.
    destruct (String.eqb_spec (tag child) SENTENCE_XML_TAG) as [Htag|_]; [|apply IH].
    destruct (Hchild Htag) as [[sentence_id Hid] [t Ht]]. rewrite Hid, Ht.
    apply IH.
Qed.

(** The loop changes the sentences of the ids it meets only. *)
Lemma loaded_not_named (children : list Element) (m : gmap string string)
    (sentence_id : string) :
  (forall child, child ∈ children -> ~ names child sentence_id) ->
  loaded children m !! sentence_id = m !! sentence_id.
Proof.
  revert m. induction children as [|child children IH]; intros m Hnot;
    [reflexivity|].
  rewrite loaded_cons.
  rewrite IH by (intros c Hc; apply Hnot; right; exact Hc).
  unfold store_child.
  destruct (String.eqb_spec (tag child) SENTENCE_XML_TAG) as [Htag|_]; [|reflexivity].
  destruct (attrib child !! "id") as [id'|] eqn:Hid; [|reflexivity].
  destruct (text child); [|reflexivity].
  apply lookup_insert_ne. intros ->.
  apply (Hnot child); [left|split; assumption].
Qed.

Lemma loaded_app (pre post : list Element) (m : gmap string string) :
  loaded (pre ++ post) m = loaded post (loaded pre m).
Proof. unfold loaded. apply foldl_app. Qed.

(** X17. When all elements of the file load and several sentences carry
    the same id, the last of them is the one [GetSentence] returns, its
    backslash-n sequences turned into newlines. *)
Theorem Load_last_sentence_wins (file_name : string) self
    (pre post : list Element) (child : Element) (sentence_id t : string) :
  parse file_name = Root (pre ++ child :: post) ->
  Forall loadable (pre ++ child :: post) ->
  names child sentence_id ->
  text child = Some t ->
  (forall other, other ∈ post -> ~ names other sentence_id) ->
  exists self',
    Load parse def_file_path (Some file_name) self = (inr tt, self')
    /\ GetSentence str self' sentence_id None
       = inr (py_replace "\n" newline t).
Proof.
  intros Hparse Hall [Htag Hid] Ht Hpost.
  destruct (load_children_loadable _ (logger (InfoLoading file_name) self) Hall)
    as (self1 & Hload & Hsent).
  unfold Load, __LoadFile. rewrite Hparse, Hload.
  eexists. split; [reflexivity|].
  unfold GetSentence. cbn [sentences logger]. rewrite Hsent.
  rewrite loaded_app.
  change (child :: post) with ([child] ++ post). rewrite loaded_app.
  rewrite loaded_not_named by exact Hpost.
  rewrite loaded_cons. unfold store_child.
  rewrite Htag, String.eqb_refl, Hid, Ht.
  change (loaded [] ?m) with m. rewrite lookup_insert_eq. reflexivity.
Qed.

(** X18. A sentence element without an id, or without a text, ends the
    load with [KeyError] (the id is looked up first) or [AttributeError]:
    the sentences before it are stored, and an id that only occurs after it
    is unknown to [GetSentence]. *)
Theorem Load_stops_at_bad_sentence (file_name : string) self
    (pre post : list Element) (bad : Element) :
  parse file_name = Root (pre ++ bad :: post) ->
  Forall loadable pre ->
  tag bad = SENTENCE_XML_TAG ->
  attrib bad !! "id" = None \/ text bad = None ->
  exists e self',
    Load parse def_file_path (Some file_name) self = (inl e, self')
    /\ e = (match attrib bad !! "id" with
            | Some _ => AttributeError
            | None => KeyError "id"
            end)
    /\ sentences self' = loaded pre (sentences self)
    /\ (forall sentence_id placeholders,
          sentences self !! sentence_id = None ->
          (forall child, child ∈ pre -> ~ names child sentence_id) ->
          GetSentence str self' sentence_id placeholders
          = inl (KeyError sentence_id)).
Proof.
  intros Hparse Hpre Htag Hbad.
  assert (forall self0, exists self1,
            load_children (pre ++ bad :: post) self0
            = (inl (match attrib bad !! "id" with
            | Some _ => AttributeError
            | None => KeyError "id"
            end),
               self1)
            /\ sentences self1 = loaded pre (sentences self0)) as Hloop.
  { clear Hparse.
    induction Hpre as [|child pre Hchild Hpre IH]; intros self0;
      cbn [load_children app].
    - rewrite Htag, String.eqb_refl.
      destruct (attrib bad !! "id") as [id'|].
      + destruct Hbad as [|Hbad]; [discriminate|]. rewrite Hbad.
        exists self0. split; reflexivity.
      + exists self0. split; reflexivity.
    - rewrite loaded_cons. unfold store_child.
      destruct (String.eqb_spec (tag child) SENTENCE_XML_TAG) as [Hc|_]; [|apply IH].
      destruct (Hchild Hc) as [[id' Hid] [t Ht]]. rewrite Hid, Ht. apply IH. }
  destruct (Hloop (logger (InfoLoading file_name) self)) as (self1 & Hload & Hsent).
  unfold Load, __LoadFile. rewrite Hparse, Hload.
  exists (match attrib bad !! "id" with
            | Some _ => AttributeError
            | None => KeyError "id"
            end), self1.
  split; [|split; [reflexivity|split; [exact Hsent|]]].
  - destruct (attrib bad !! "id"); reflexivity.
  - intros sentence_id placeholders Hnone Hnot. unfold GetSentence.
    change (sentences self1 = loaded pre (sentences self)) in Hsent.
    rewrite Hsent, loaded_not_named by exact Hnot. rewrite Hnone. reflexivity.
Qed.

End TranslationFacts.

Section MoreCommandsFacts.
Context {Platform : Type}.
Variable kick_pass :
  Config -> Chat -> Platform -> outcome (list Member) * Platform.

Implicit Types (w : World Platform) (self : CommandData) (k : WrappedList).

(** What the command does once its loop has returned: it reports the count,
    lists the members when there are any, and only then asks for a new invite
    link. *)
Lemma RemoveNoPaymentCmd_after_loop fuel self w k (n : nat) w1 :
  EvictAllMatching kick_pass fuel self
    {| config := config w; objects := objects w; platform := platform w;
       outbox := outbox w
                 ++ [SendMessage
                       [REMOVE_NO_PAYMENT_NOTICE_CMD (GetTitle (cmd_chat self))]];
       log := log w |}
  = Some (Return (k, n), w1) ->
  RemoveNoPaymentCmd_body kick_pass fuel self w
  = Some (Return tt,
          {| config := config w1; objects := objects w1; platform := platform w1;
             outbox :=
               outbox w1
               ++ [SendMessage
                     (REMOVE_NO_PAYMENT_COMPLETED_CMD
                        (Z.of_nat (length (items k (objects w1))))
                      :: match items k (objects w1) with
                         | [] => []
                         | _ => [REMOVE_NO_PAYMENT_LIST_CMD (items k (objects w1))]
                         end)]
               ++ match items k (objects w1) with
                  | [] => []
                  | _ => [NewInviteLink]
                  end;
             log := log w1 |}).
Proof.
  intros Hloop. unfold RemoveNoPaymentCmd_body.
  unfold bind at 1. cbn [_SendMessage World_CommandBase].
  unfold bind at 1. rewrite Hloop. cbn [fst].
  unfold bind at 1. unfold on_objects at 1. rewrite Count_items.
  unfold bind at 1. unfold on_objects at 1. cbn [objects set_objects].
  rewrite Any_items.
  unfold ToString, on_objects, bind, ret.
  destruct (items k (objects w1)) as [|m ms] eqn:Hitems;
    repeat first
      [ rewrite Any_items
      | rewrite Hitems
      | progress cbn [objects set_objects config platform outbox log
                      _SendMessage World_CommandBase _NewInviteLink] ];
    unfold _NewInviteLink, set_objects;
    cbn [objects set_objects config platform outbox log app];
    rewrite ?app_nil_r, <- ?app_assoc; reflexivity.
Qed.

(** The loop proper: passes that return non-empty lists, followed by a pass
    that returns nobody, end the loop; the lists are appended in their
    order. *)
Lemma while_collects (outs : list (list Member)) :
  forall self w k (p_end p_fin : Platform),
    APP_TEST_MODE (config w) = false \/ outs = [] ->
    passes_return kick_pass (config w) (cmd_chat self) outs (platform w) p_end ->
    kick_pass (config w) (cmd_chat self) p_end = (Return [], p_fin) ->
    list_elements k ∈ dom (objects w) ->
    forall fuel, (length outs < fuel)%nat ->
    exists h,
      while_not_finished fuel (kick_iteration kick_pass self k) w
      = Some (Return (S (length outs)),
              {| config := config w; objects := h; platform := p_fin;
                 outbox := outbox w; log := log w |})
      /\ items k h = items k (objects w) ++ concat outs
      /\ list_elements k ∈ dom h.
Proof.
  induction outs as [|ms outs IH];
    intros self w k p_end p_fin Htest Hpasses Hk Hdom fuel Hfuel;
    (destruct fuel as [|fuel]; [simpl in Hfuel; lia|]).
  - simpl in Hpasses. subst p_end.
    destruct (kick_iteration_returns kick_pass self k w [] p_fin Hk Hdom)
      as (h & Hiter & Hitems & Hdom').
    rewrite while_not_finished_S, Hiter. exists h.
    split; [reflexivity|]. split; [exact Hitems|exact Hdom'].
  - destruct Htest as [Htest|]; [|discriminate].
    destruct Hpasses as (Hms & px & Hkx & Hpasses).
    destruct (kick_iteration_returns kick_pass self k w ms px Hkx Hdom)
      as (h & Hiter & Hitems & Hdom').
    destruct ms as [|m ms]; [congruence|]. rewrite Htest in Hiter.
    rewrite while_not_finished_S, Hiter. cbv beta iota.
    edestruct (IH self {| config := config w; objects := h; platform := px;
                          outbox := outbox w; log := log w |} k p_end p_fin)
      as (h' & Hrun & Hitems' & Hdom'');
      [left; exact Htest|exact Hpasses|exact Hk|exact Hdom'| |].
    { simpl in Hfuel. apply Nat.succ_lt_mono. exact Hfuel. }
    rewrite Hrun. exists h'. split; [reflexivity|]. split; [|exact Hdom''].
    rewrite Hitems'. cbn [objects concat]. rewrite Hitems, <- app_assoc.
    reflexivity.
Qed.

(** X19. In a group chat with test mode off, when the successive passes
    return the non-empty lists [outs] and the pass after them returns
    nobody, the command ends as soon as the loop is allowed one iteration
    more than there are lists. It has then sent its notice and one message
    that gives the number of the members the passes returned, followed by
    the list of exactly these members in the order they were returned, when
    there are any; it asks for a new invite link exactly when somebody was
    kicked; the platform is as the last pass left it. *)
Theorem RemoveNoPaymentCmd_reports_total
    (outs : list (list Member)) self w (p_end p_fin : Platform) :
  cmd_private self = false ->
  APP_TEST_MODE (config w) = false ->
  passes_return kick_pass (config w) (cmd_chat self) outs (platform w) p_end ->
  kick_pass (config w) (cmd_chat self) p_end = (Return [], p_fin) ->
  forall fuel, (length outs < fuel)%nat ->
  exists h,
    RemoveNoPaymentCmd_ExecuteCommand kick_pass fuel self w
    = Some (Return tt,
            {| config := config w; objects := h; platform := p_fin;
               outbox :=
                 outbox w
                 ++ [SendMessage
                       [REMOVE_NO_PAYMENT_NOTICE_CMD (GetTitle (cmd_chat self))];
                     SendMessage
                       (REMOVE_NO_PAYMENT_COMPLETED_CMD
                          (Z.of_nat (length (concat outs)))
                        :: match concat outs with
                           | [] => []
                           | _ => [REMOVE_NO_PAYMENT_LIST_CMD (concat outs)]
                           end)]
                 ++ match concat outs with
                    | [] => []
                    | _ => [NewInviteLink]
                    end;
               log := log w |}).
Proof.
  intros Hgroup Htest Hpasses Hlast fuel Hfuel.
  set (w0 := {| config := config w; objects := objects w;
                platform := platform w;
                outbox := outbox w
                          ++ [SendMessage
                                [REMOVE_NO_PAYMENT_NOTICE_CMD
                                   (GetTitle (cmd_chat self))]];
                log := log w |}).
  destruct (ChatMembersList_new w0) as (k & h & Hnew & Hempty & Hdom).
  destruct (while_collects outs self (set_objects h w0) k p_end p_fin)
    with (fuel := fuel) as (h' & Hrun & Hitems & _);
    try assumption; [left; exact Htest|].
  cbn [objects set_objects config platform outbox log] in Hrun, Hitems.
  rewrite Hempty in Hitems. simpl in Hitems.
  exists h'.
  unfold RemoveNoPaymentCmd_ExecuteCommand, GroupChatOnly. rewrite Hgroup.
  rewrite (RemoveNoPaymentCmd_after_loop fuel self w k (S (length outs))
             {| config := config w; objects := h'; platform := p_fin;
                outbox := outbox w0; log := log w |}).
  - cbn [objects config platform outbox log]. rewrite Hitems.
    subst w0. cbn [outbox]. rewrite <- !app_assoc. reflexivity.
  - fold w0. unfold EvictAllMatching, bind. rewrite Hnew, Hrun. reflexivity.
Qed.

(** X20. In a private chat the command only answers that it is for groups:
    whatever number of iterations the loop is allowed, no pass is made, the
    platform and the lists are as they were, and nothing else is sent. *)
Theorem RemoveNoPaymentCmd_private_chat fuel self w :
  cmd_private self = true ->
  RemoveNoPaymentCmd_ExecuteCommand kick_pass fuel self w
  = Some (Return tt,
          {| config := config w; objects := objects w; platform := platform w;
             outbox := outbox w ++ [SendMessage [GROUP_ONLY_ERR_MSG]];
             log := log w |}).
Proof.
  intros Hprivate.
  unfold RemoveNoPaymentCmd_ExecuteCommand, GroupChatOnly.
  rewrite Hprivate. reflexivity.
Qed.

(** The chats of a list checked one after the other, when no pass fails. *)
Lemma for_each_check_chat (ids : list Z) :
  forall (outs : list (list Member)) w (p' : Platform),
    checks_return kick_pass (config w) ids outs (platform w) p' ->
    exists h,
      for_each ids (check_chat kick_pass) w
      = Some (Return tt,
              {| config := config w; objects := h; platform := p';
                 outbox := outbox w;
                 log := log w ++ concat (zip_with check_records ids outs) |}).
Proof.
  induction ids as [|c ids IH]; intros [|ms outs] w p' Hpasses;
    try contradiction.
  - simpl in Hpasses. subst p'. exists (objects w). destruct w. cbn.
    rewrite app_nil_r. reflexivity.
  - destruct Hpasses as (p1 & Hk & Hpasses).
    destruct (check_chat_returns kick_pass w c ms p1 Hk) as (h & Hrun).
    match type of Hrun with _ = Some (_, ?x) => set (w1 := x) in * end.
    destruct (IH outs w1 p' Hpasses) as (h' & Hrest).
    exists h'. cbn [for_each]. unfold bind. rewrite Hrun, Hrest.
    subst w1. cbn [config outbox log zip_with concat]. unfold check_records.
    rewrite <- !app_assoc. reflexivity.
Qed.

(** X21. When the passes over the configured chats, one pass for each chat
    in the order of the configuration and each from the platform the one
    before left, all return, the periodic check ends without exception,
    with test mode on or off. It has made these passes and no other: the
    platform is as the last of them left it. The log has gained the record
    that the check started and then, chat by chat, the record that the chat
    is checked, the number of members its pass returned, and these members
    when there are any. No message is sent. *)
Theorem PaymentsCheckTask_one_pass_per_chat
    w (outs : list (list Member)) (p' : Platform) :
  checks_return kick_pass (config w) (PAYMENT_CHECK_CHAT_IDS (config w)) outs
    (platform w) p' ->
  exists h,
    __PaymentsCheckTask kick_pass w
    = Some (Return tt,
            {| config := config w; objects := h; platform := p';
               outbox := outbox w;
               log := log w
                      ++ LogCheckStarted
                         :: concat (zip_with check_records
                                      (PAYMENT_CHECK_CHAT_IDS (config w))
                                      outs) |}).
Proof.
  intros Hpasses.
  set (w0 := {| config := config w; objects := objects w;
                platform := platform w; outbox := outbox w;
                log := log w ++ [LogCheckStarted] |}).
  destruct (for_each_check_chat _ outs w0 p' Hpasses) as (h & Hrun).
  exists h. unfold __PaymentsCheckTask.
  unfold bind at 1. cbn [logger_info]. unfold bind at 1. cbn [GetValue config].
  fold w0. rewrite Hrun. subst w0. cbn [config outbox log].
  rewrite <- app_assoc. reflexivity.
Qed.

End MoreCommandsFacts.

Section StartCommandFacts.
Import PaymentsCheckScheduler.

(** X22. A missing or malformed period is answered with the parameter error
    and goes no further: the scheduler is not asked to start, and its
    state is unchanged but for the message sent. *)
Theorem PaymentTaskStartCmd_parameter_error self (s : Scheduler) :
  GetAsInt self 0 s = Some (Raise CommandParameterError, s) ->
  PaymentTaskStartCmd_ExecuteCommand self s
  = Some (Return tt,
          {| chat_lists := chat_lists s; status := status s;
             period := period s; timer := timer s;
             job_chats := job_chats s;
             sent := sent s ++ [SendMessage [PARAM_ERR_MSG]] |}).
Proof.
  intros Hparam. unfold PaymentTaskStartCmd_ExecuteCommand, try_except_else.
  rewrite Hparam. reflexivity.
Qed.

End StartCommandFacts.

Section HoursFacts.
Variable GetSentence : string -> list (string * Z) -> Message.

(** X23. The time left is worded in whole days from 48 hours on, the days
    being the hours divided by 24 and rounded down, so never fewer than two;
    from 2 to 47 hours it is worded in hours; at one hour or less, and for a
    negative number, it is as soon as possible. *)
Theorem HoursToStr_cases (hours : Z) :
  (hours <= 1
   /\ __HoursToStr GetSentence hours = GetSentence "ASAP_MSG"%string [])
  \/ (2 <= hours <= 47
      /\ __HoursToStr GetSentence hours
         = GetSentence "WITHIN_HOURS_MSG"%string [("hours"%string, hours)])
  \/ (exists days,
        2 <= days /\ 24 * days <= hours < 24 * days + 24
        /\ __HoursToStr GetSentence hours
           = GetSentence "WITHIN_DAYS_MSG"%string [("days"%string, days)]).
Proof.
  unfold __HoursToStr.
  destruct (hours >? 47) eqn:Hd; [|destruct (hours >? 1) eqn:Hh].
  - right. right. exists (hours / 24).
    pose proof (Z.div_mod hours 24 ltac:(lia)).
    pose proof (Z.mod_pos_bound hours 24 ltac:(lia)).
    repeat split; try reflexivity; lia.
  - right. left. split; [lia|reflexivity].
  - left. split; [lia|reflexivity].
Qed.

End HoursFacts.

(** ** The further properties at concrete inputs *)

(** X2 at a list that does not hold 40. *)
Lemma RemoveSingle_absent_raises_witness :
  RemoveSingle first_list 40 numbers = Some (Raise ValueError, numbers).
Proof.
  apply (RemoveSingle_absent_raises first_list 40 numbers).
  compute_done.
Defined.

(** X3 at a list that holds 20 twice. *)
Lemma RemoveSingle_removes_first_witness :
  exists h' pre post,
    RemoveSingle first_list 20 numbers = Some (Return tt, h')
    /\ items first_list numbers = pre ++ 20 :: post
    /\ (20 ∉ pre)
    /\ items first_list h' = pre ++ post
    /\ Count first_list h'
       = Some (Return (Z.of_nat (length (items first_list numbers)) - 1), h').
Proof.
  apply (RemoveSingle_removes_first first_list 20 numbers).
  compute_done.
Defined.

(** X4 at a list that does not hold 40. *)
Lemma AddSingle_RemoveSingle_restores_witness :
  exists h',
    (AddSingle first_list 40;;; RemoveSingle first_list 40)%comp numbers
    = Some (Return tt, h')
    /\ items first_list h' = items first_list numbers.
Proof.
  apply (AddSingle_RemoveSingle_restores first_list 40 numbers).
  compute_done.
Defined.

(** X6 at two lists of a store. *)
Lemma AddMultiple_copies_witness :
  exists h',
    (AddMultiple first_list (inr second_list);;; Clear second_list)%comp two_lists
    = Some (Return tt, h')
    /\ items first_list h' = items first_list two_lists ++ items second_list two_lists
    /\ items second_list h' = [].
Proof.
  apply (AddMultiple_copies first_list second_list two_lists).
  discriminate.
Defined.

(** X7 at the index 1 and at the index 4 of a list of four. *)
Lemma getitem_range_witness :
  (exists x, __getitem__ first_list 1 numbers = Item x
             /\ items first_list numbers !! Z.to_nat 1 = Some x
             /\ __getitem__ first_list (1 - 4) numbers = Item x)
  /\ __getitem__ first_list 4 numbers = @IndexError Z.
Proof.
  split.
  - apply (getitem_range first_list 1 numbers). vm_compute. split; congruence.
  - apply (getitem_range first_list 4 numbers). right. vm_compute. congruence.
Defined.

(** X8 at the last index, written as -1, and at the index -5. *)
Lemma setitem_getitem_witness :
  (exists h',
      __setitem__ first_list (-1) 50 numbers = Item h'
      /\ __getitem__ first_list (-1) h' = Item 50
      /\ length (items first_list h') = length (items first_list numbers)
      /\ (forall key',
            py_index (length (items first_list numbers)) key'
            <> py_index (length (items first_list numbers)) (-1) ->
            __getitem__ first_list key' h' = __getitem__ first_list key' numbers))
  /\ __setitem__ first_list (-5) 50 numbers = IndexError.
Proof.
  split.
  - apply (setitem_getitem first_list (-1) 50 numbers). vm_compute. split; congruence.
  - apply (setitem_getitem first_list (-5) 50 numbers). left. vm_compute. reflexivity.
Defined.

(** X9 at the second 20 of the list 10, 20, 30, 20, taken by the index 3
    and by the index -1, and at the index 4. *)
Lemma delitem_range_witness :
  (exists h' pre x post,
      __delitem__ first_list 3 numbers = Item h'
      /\ items first_list numbers = pre ++ x :: post
      /\ Z.of_nat (length pre) = 3
      /\ __getitem__ first_list 3 numbers = Item x
      /\ items first_list h' = pre ++ post
      /\ Count first_list h' = Some (Return (4 - 1), h'))
  /\ (exists h' pre x post,
        __delitem__ first_list (-1) numbers = Item h'
        /\ items first_list numbers = pre ++ x :: post
        /\ Z.of_nat (length pre) = -1 + 4
        /\ __getitem__ first_list (-1) numbers = Item x
        /\ items first_list h' = pre ++ post
        /\ Count first_list h' = Some (Return (4 - 1), h'))
  /\ __delitem__ first_list 4 numbers = IndexError.
Proof.
  split; [|split].
  - apply (delitem_range first_list 3 numbers). vm_compute. split; congruence.
  - apply (delitem_range first_list (-1) numbers). vm_compute. split; congruence.
  - apply (delitem_range first_list 4 numbers). right. vm_compute. congruence.
Defined.

(** X10 at members sorted by their id, largest first. *)
Lemma Sort_orders_witness :
  exists h',
    Sort (fun _ _ : Member => false) Z.ltb first_list (Some user_id) true
      unordered_members
    = Some (Return tt, h')
    /\ items first_list h' ≡ₚ items first_list unordered_members
    /\ StronglySorted (fun a b => (user_id a <? user_id b) = false)
         (items first_list h').
Proof.
  apply (Sort_orders (fun _ _ : Member => false) Z.ltb first_list
           (Some user_id) true unordered_members).
  - intros a b. cbn [sort_lt]. rewrite Z.ltb_lt, Z.ltb_ge. lia.
  - intros a b c. cbn [sort_lt]. rewrite !Z.ltb_ge. lia.
Defined.

(** X12 at a sentence without a placeholder. *)
Lemma GetSentence_without_braces_witness :
  TranslationLoader.GetSentence str_of_string english_loader "ALIVE_CMD"
    (Some [("name"%string, "Ann"%string)])
  = inr "I am alive"%string.
Proof.
  apply (GetSentence_without_braces str_of_string english_loader
           "ALIVE_CMD" "I am alive" [("name"%string, "Ann"%string)]).
  - vm_compute. reflexivity.
  - reflexivity.
Defined.

(** X13 at a greeting with the placeholder of the name. *)
Lemma GetSentence_substitutes_witness :
  TranslationLoader.GetSentence str_of_string english_loader "HELLO_MSG"
    (Some [("name"%string, "Ann"%string)])
  = inr "Hello Ann!"%string.
Proof.
  apply (GetSentence_substitutes str_of_string english_loader
           "HELLO_MSG" "name" "Hello " "!" "Ann"%string).
  - vm_compute. reflexivity.
  - reflexivity.
  - reflexivity.
Defined.

(** X14 at a language file that does not exist. *)
Lemma Load_falls_back_to_default_witness :
  fst (TranslationLoader.Load language_files "lang/lang_en.xml"
         (Some "lang_fr.xml"%string) TranslationLoader.TranslationLoader_init)
  = fst (TranslationLoader.Load language_files "lang/lang_en.xml" None
           TranslationLoader.TranslationLoader_init)
  /\ TranslationLoader.sentences
       (snd (TranslationLoader.Load language_files "lang/lang_en.xml"
               (Some "lang_fr.xml"%string)
               TranslationLoader.TranslationLoader_init))
     = TranslationLoader.sentences
         (snd (TranslationLoader.Load language_files "lang/lang_en.xml" None
                 TranslationLoader.TranslationLoader_init))
  /\ TranslationLoader.ErrorNotFound "lang_fr.xml"
     ∈ TranslationLoader.logged
         (snd (TranslationLoader.Load language_files "lang/lang_en.xml"
                 (Some "lang_fr.xml"%string)
                 TranslationLoader.TranslationLoader_init)).
Proof.
  apply (Load_falls_back_to_default language_files "lang/lang_en.xml"
           "lang_fr.xml" TranslationLoader.TranslationLoader_init).
  reflexivity.
Defined.

(** X15 at a language file that is not well formed. *)
Lemma Load_catches_only_FileNotFoundError_witness :
  TranslationLoader.Load language_files "lang/lang_en.xml"
    (Some "lang_broken.xml"%string) TranslationLoader.TranslationLoader_init
  = (inl TranslationLoader.ParseError,
     TranslationLoader.logger (TranslationLoader.InfoLoading "lang_broken.xml")
       TranslationLoader.TranslationLoader_init).
Proof.
  apply (Load_catches_only_FileNotFoundError language_files "lang/lang_en.xml"
           "lang_broken.xml" TranslationLoader.TranslationLoader_init).
  - reflexivity.
  - discriminate.
Defined.

(** X16 at a loader that holds a greeting and loads a file that fails. *)
Lemma Load_keeps_sentences_witness :
  is_Some
    (TranslationLoader.sentences
       (snd (TranslationLoader.Load language_files "lang/lang_en.xml"
               (Some "lang_bad.xml"%string) english_loader))
     !! "HELLO_MSG"%string).
Proof.
  apply (Load_keeps_sentences language_files "lang/lang_en.xml"
           (Some "lang_bad.xml"%string) english_loader "HELLO_MSG").
  eexists. vm_compute. reflexivity.
Defined.

(** X17 at a file that gives ALIVE_CMD twice. *)
Lemma Load_last_sentence_wins_witness :
  exists self',
    TranslationLoader.Load language_files "lang/lang_en.xml"
      (Some "lang_it.xml"%string) TranslationLoader.TranslationLoader_init
    = (inr tt, self')
    /\ TranslationLoader.GetSentence str_of_string self' "ALIVE_CMD" None
       = inr "Sono vivo"%string.
Proof.
  apply (Load_last_sentence_wins str_of_string language_files "lang/lang_en.xml"
           "lang_it.xml" TranslationLoader.TranslationLoader_init
           [sentence_element "ALIVE_CMD" "Vivo";
            {| TranslationLoader.tag := "comment";
               TranslationLoader.attrib := ∅;
               TranslationLoader.text := None |}]
           [sentence_element "HELLO_MSG" "Ciao {name}!"]
           (sentence_element "ALIVE_CMD" "Sono vivo") "ALIVE_CMD" "Sono vivo").
  - reflexivity.
  - repeat constructor; try discriminate; eexists; vm_compute; reflexivity.
  - split; [reflexivity|vm_compute; reflexivity].
  - reflexivity.
  - intros other Hin [_ Hid]. apply list_elem_of_singleton in Hin. subst other.
    vm_compute in Hid. discriminate.
Defined.

(** X18 at a file whose second sentence has no id. *)
Lemma Load_stops_at_bad_sentence_witness :
  exists e self',
    TranslationLoader.Load language_files "lang/lang_en.xml"
      (Some "lang_bad.xml"%string) TranslationLoader.TranslationLoader_init
    = (inl e, self')
    /\ e = TranslationLoader.KeyError "id"
    /\ TranslationLoader.sentences self'
       = TranslationLoader.loaded [sentence_element "ALIVE_CMD" "Alive"] ∅
    /\ (forall sentence_id (placeholders : option (list (string * string))),
          (∅ : gmap string string) !! sentence_id = None ->
          (forall child, child ∈ [sentence_element "ALIVE_CMD" "Alive"] ->
             ~ TranslationLoader.names child sentence_id) ->
          TranslationLoader.GetSentence str_of_string self' sentence_id placeholders
          = inl (TranslationLoader.KeyError sentence_id)).
Proof.
  refine (Load_stops_at_bad_sentence str_of_string language_files
            "lang/lang_en.xml" "lang_bad.xml"
            TranslationLoader.TranslationLoader_init
            [sentence_element "ALIVE_CMD" "Alive"]
            [sentence_element "HELLO_MSG" "Hello {name}!"]
            {| TranslationLoader.tag := "sentence";
               TranslationLoader.attrib := ∅;
               TranslationLoader.text := Some "Lost"%string |} _ _ _ _).
  - reflexivity.
  - repeat constructor; eexists; vm_compute; reflexivity.
  - reflexivity.
  - left. reflexivity.
Defined.

(** X19 at three matching members and a cap of two: the passes return the
    first two, then the third, then nobody. *)
Lemma RemoveNoPaymentCmd_reports_total_witness :
  exists h,
    RemoveNoPaymentCmd_ExecuteCommand (capped_kick 2) 3 group_command
      (fresh_world false [] [member_a; member_b; member_c])
    = Some (Return tt,
            {| config := config (fresh_world false [] [member_a; member_b; member_c]);
               objects := h; platform := [];
               outbox :=
                 [SendMessage
                    [REMOVE_NO_PAYMENT_NOTICE_CMD (Some "Members"%string)];
                  SendMessage
                    [REMOVE_NO_PAYMENT_COMPLETED_CMD 3;
                     REMOVE_NO_PAYMENT_LIST_CMD [member_a; member_b; member_c]];
                  NewInviteLink];
               log := [] |}).
Proof.
  apply (RemoveNoPaymentCmd_reports_total (capped_kick 2)
           [[member_a; member_b]; [member_c]] group_command
           (fresh_world false [] [member_a; member_b; member_c]) [] [] eq_refl
           eq_refl).
  - simpl. split; [discriminate|]. eexists. split; [reflexivity|].
    split; [discriminate|]. eexists. split; reflexivity.
  - reflexivity.
  - simpl. lia.
Defined.

(** X20 at a command issued in a private chat, the loop allowed nothing. *)
Lemma RemoveNoPaymentCmd_private_chat_witness :
  RemoveNoPaymentCmd_ExecuteCommand (capped_kick 2) 0 private_command
    (fresh_world false [] [member_a; member_b; member_c])
  = Some (Return tt,
          {| config := config (fresh_world false [] [member_a; member_b; member_c]);
             objects := ∅; platform := [member_a; member_b; member_c];
             outbox := [SendMessage [GROUP_ONLY_ERR_MSG]]; log := [] |}).
Proof.
  apply (RemoveNoPaymentCmd_private_chat (capped_kick 2) 0 private_command
           (fresh_world false [] [member_a; member_b; member_c])).
  reflexivity.
Defined.

(** X21 at two chats, three matching members and a cap of one: two passes
    are made, each kicks one member, and one member is left. *)
Lemma PaymentsCheckTask_one_pass_per_chat_witness :
  exists h,
    __PaymentsCheckTask (capped_kick 1)
      (fresh_world false [1; 2] [member_a; member_b; member_c])
    = Some (Return tt,
            {| config := config (fresh_world false [1; 2]
                                   [member_a; member_b; member_c]);
               objects := h; platform := [member_c]; outbox := [];
               log := [LogCheckStarted;
                       LogCheckingChat 1; LogKickedCount 1 1;
                       LogKickedMembers [member_a];
                       LogCheckingChat 2; LogKickedCount 2 1;
                       LogKickedMembers [member_b]] |}).
Proof.
  apply (PaymentsCheckTask_one_pass_per_chat (capped_kick 1)
           (fresh_world false [1; 2] [member_a; member_b; member_c])
           [[member_a]; [member_b]] [member_c]).
  simpl. eexists. split; [reflexivity|]. eexists. split; reflexivity.
Defined.

(** X22 at a command without a parameter. *)
Lemma PaymentTaskStartCmd_parameter_error_witness :
  PaymentsCheckScheduler.PaymentTaskStartCmd_ExecuteCommand group_command
    PaymentsCheckScheduler.new_scheduler
  = Some (Return tt,
          {| PaymentsCheckScheduler.chat_lists :=
               PaymentsCheckScheduler.chat_lists PaymentsCheckScheduler.new_scheduler;
             PaymentsCheckScheduler.status := PaymentsCheckScheduler.Stopped;
             PaymentsCheckScheduler.period := None;
             PaymentsCheckScheduler.timer := None;
             PaymentsCheckScheduler.job_chats :=
               PaymentsCheckScheduler.job_chats PaymentsCheckScheduler.new_scheduler;
             PaymentsCheckScheduler.sent := [SendMessage [PARAM_ERR_MSG]] |}).
Proof.
  apply (PaymentTaskStartCmd_parameter_error group_command
           PaymentsCheckScheduler.new_scheduler).
  reflexivity.
Defined.
